(** * Bird and wildlife slideshow scrapers: a shallow embedding

    The repository holds three standalone scripts:
    - [scripts/scrape_inat.py]: the iNaturalist API scraper,
    - [birdslide/scripts/scrape_ebird.py]: the eBird static-HTML scraper,
    - [scripts/scrape_ebird.py]: the eBird browser-rendered scraper.

    Python values that come out of [response.json()] are embedded as the
    inductive type [pyval]; exceptions are embedded in the error monad
    [result]; the list/set mutations of the loops are explicit state
    passing; the transport (HTTP client, headless browser, HTML parser) is an
    input of the model.  Diagnostic [print] calls are not modelled.

    Strings are Rocq [string]s read as sequences of characters in the ASCII
    range; the character classes of Python ([\d], [\s], [\b], [lower],
    [upper], [isdigit]) are modelled on that range. JSON numbers are
    modelled as integers. *)

From stdpp Require Import gmap strings list pretty.
From Stdlib Require Import ZArith Ascii.

Local Open Scope Z_scope.
#[local] Set Warnings "-clear-no-such-hyp".

(** ** Characters and strings *)

Module Str.

Definition code (c : ascii) : N := N_of_ascii c.

Definition between (lo hi : N) (c : ascii) : bool :=
  ((lo <=? code c) && (code c <=? hi))%N.

Definition is_digit : ascii → bool := between 48 57.
Definition is_upper : ascii → bool := between 65 90.
Definition is_lower : ascii → bool := between 97 122.

(** [\w] on the ASCII range: letters, digits and the underscore. *)
Definition is_word (c : ascii) : bool :=
  is_digit c || is_upper c || is_lower c || Ascii.eqb c "_"%char.

(** [\s] on the ASCII range: tab, LF, VT, FF, CR, the separators
    0x1c..0x1f and the space. *)
Definition is_space (c : ascii) : bool :=
  between 9 13 c || between 28 31 c || Ascii.eqb c " "%char.

Definition lower_char (c : ascii) : ascii :=
  if is_upper c then ascii_of_N (code c + 32) else c.
Definition upper_char (c : ascii) : ascii :=
  if is_lower c then ascii_of_N (code c - 32) else c.

Fixpoint map (f : ascii → ascii) (s : string) : string :=
  match s with
  | EmptyString => EmptyString
  | String c s' => String (f c) (map f s')
  end.

(** [s.lower()] and [s.upper()] *)
Definition lower : string → string := map lower_char.
Definition upper : string → string := map upper_char.

Fixpoint forallb (p : ascii → bool) (s : string) : bool :=
  match s with
  | EmptyString => true
  | String c s' => p c && forallb p s'
  end.

Fixpoint existsb (p : ascii → bool) (s : string) : bool :=
  match s with
  | EmptyString => false
  | String c s' => p c || existsb p s'
  end.

(** [s.isdigit()]: at least one character, and all of them digits. *)
Definition isdigit (s : string) : bool :=
  match s with
  | EmptyString => false
  | _ => forallb is_digit s
  end.

(** [s.startswith(p)] *)
Fixpoint startswith (p s : string) : bool :=
  match p, s with
  | EmptyString, _ => true
  | String a p', String b s' => Ascii.eqb a b && startswith p' s'
  | String _ _, EmptyString => false
  end.

(** [s[:n]] and [s[n:]] for [0 <= n] *)
Fixpoint take (n : nat) (s : string) : string :=
  match n, s with
  | S n', String c s' => String c (take n' s')
  | _, _ => EmptyString
  end.

Fixpoint drop (n : nat) (s : string) : string :=
  match n, s with
  | S n', String _ s' => drop n' s'
  | _, _ => s
  end.

(** [s.find(sub)]: the index of the first occurrence of [sub] in [s];
    [None] stands for Python's [-1]. *)
Fixpoint find (sub s : string) : option nat :=
  if startswith sub s then Some 0%nat
  else match s with
       | EmptyString => None
       | String _ s' => S <$> find sub s'
       end.

(** [sub in s] *)
Definition contains (sub s : string) : bool := bool_decide (is_Some (find sub s)).

(** [s.replace(old, new)] replaces every occurrence of [old], scanning
    from the left and resuming after each replaced occurrence.  [skip] counts
    the characters of an occurrence that are still to be passed over. *)
Fixpoint replace_go (old new : string) (skip : nat) (s : string) : string :=
  match s with
  | EmptyString => EmptyString
  | String c s' =>
      match skip with
      | S k => replace_go old new k s'
      | O =>
          if startswith old s
          then new +:+ replace_go old new (String.length old - 1) s'
          else String c (replace_go old new 0 s')
      end
  end.

(** With an empty [old], Python inserts [new] before every character and at
    the end. *)
Fixpoint insert_after_each (new s : string) : string :=
  match s with
  | EmptyString => EmptyString
  | String c s' => String c (new +:+ insert_after_each new s')
  end.

Definition replace (old new s : string) : string :=
  match old with
  | EmptyString => new +:+ insert_after_each new s
  | _ => replace_go old new 0 s
  end.

(** [sep.join(l)] *)
Fixpoint join (sep : string) (l : list string) : string :=
  match l with
  | [] => EmptyString
  | [x] => x
  | x :: l' => x +:+ sep +:+ join sep l'
  end.

End Str.

(** ** Python values and exceptions *)

#[warnings="-register-all"]
Inductive pyval : Type :=
| PNone
| PBool (b : bool)
| PInt (n : Z)
| PStr (s : string)
| PList (l : list pyval)
| PDict (kvs : list (string * pyval)).

Inductive exn : Type :=
| RequestException
| AttributeError
| TypeError
| KeyError
| IndexError.

Inductive result (A : Type) : Type :=
| Ok (a : A)
| Raise (e : exn).
Arguments Ok {A} a.
Arguments Raise {A} e.

Global Instance result_ret : MRet result := λ A, Ok.
Global Instance result_bind : MBind result := λ A B f m,
  match m with
  | Ok a => f a
  | Raise e => Raise e
  end.

(** *** Dictionaries

    A Python [dict] keeps its keys in insertion order: it is an association
    list in which a key occurs once. *)

Fixpoint dict_lookup {A} (k : string) (kvs : list (string * A)) : option A :=
  match kvs with
  | [] => None
  | (k', v) :: kvs' => if String.eqb k k' then Some v else dict_lookup k kvs'
  end.

(** [d[k] = v]: an existing key keeps its place, a new key goes last. *)
Fixpoint dict_set (k : string) (v : pyval) (kvs : list (string * pyval))
  : list (string * pyval) :=
  match kvs with
  | [] => [(k, v)]
  | (k', v') :: kvs' =>
      if String.eqb k k' then (k, v) :: kvs' else (k', v') :: dict_set k v kvs'
  end.

(** [d.update(other)] *)
Definition dict_update (kvs other : list (string * pyval)) : list (string * pyval) :=
  fold_left (λ acc kv, dict_set kv.1 kv.2 acc) other kvs.

(** [x.get(k, dflt)]: only a [dict] has the method. *)
Definition py_get (x : pyval) (k : string) (dflt : pyval) : result pyval :=
  match x with
  | PDict kvs => Ok (default dflt (dict_lookup k kvs))
  | _ => Raise AttributeError
  end.

(** Truth value of [x] in [if x] and [if not x]. *)
Definition py_truthy (x : pyval) : bool :=
  match x with
  | PNone => false
  | PBool b => b
  | PInt n => negb (n =? 0)
  | PStr s => negb (String.eqb s "")
  | PList l => match l with [] => false | _ => true end
  | PDict kvs => match kvs with [] => false | _ => true end
  end.

(** [x[0]] *)
Definition py_index0 (x : pyval) : result pyval :=
  match x with
  | PList (v :: _) => Ok v
  | PList [] => Raise IndexError
  | PStr (String c _) => Ok (PStr (String c EmptyString))
  | PStr EmptyString => Raise IndexError
  | PDict _ => Raise KeyError
  | PNone | PBool _ | PInt _ => Raise TypeError
  end.

(** [len(x)] *)
Definition py_len (x : pyval) : result nat :=
  match x with
  | PList l => Ok (length l)
  | PStr s => Ok (String.length s)
  | PDict kvs => Ok (length kvs)
  | PNone | PBool _ | PInt _ => Raise TypeError
  end.

Fixpoint chars (s : string) : list pyval :=
  match s with
  | EmptyString => []
  | String c s' => PStr (String c EmptyString) :: chars s'
  end.

(** The items that [for v in x] visits. *)
Definition py_iter (x : pyval) : result (list pyval) :=
  match x with
  | PList l => Ok l
  | PStr s => Ok (chars s)
  | PDict kvs => Ok ((λ kv, PStr kv.1) <$> kvs)
  | PNone | PBool _ | PInt _ => Raise TypeError
  end.

(** [x.lower()], [x.upper()] and [x.replace(old, new)]: string methods. *)
Definition py_lower (x : pyval) : result string :=
  match x with
  | PStr s => Ok (Str.lower s)
  | _ => Raise AttributeError
  end.

Definition py_upper (x : pyval) : result string :=
  match x with
  | PStr s => Ok (Str.upper s)
  | _ => Raise AttributeError
  end.

Definition py_replace (x : pyval) (old new : string) : result string :=
  match x with
  | PStr s => Ok (Str.replace old new s)
  | _ => Raise AttributeError
  end.

(** *** [repr] and [str] *)

(** The double quote character. *)
Definition dquote : ascii := "034"%char.

Definition hex_digit (n : N) : ascii :=
  if (n <? 10)%N then ascii_of_N (48 + n) else ascii_of_N (87 + n).

Definition repr_char (quote c : ascii) : string :=
  if Ascii.eqb c quote || Ascii.eqb c "\"%char then String "\"%char (String c EmptyString)
  else if (Str.code c =? 9)%N then "\t"
  else if (Str.code c =? 10)%N then "\n"
  else if (Str.code c =? 13)%N then "\r"
  else if (Str.code c <? 32)%N || (Str.code c =? 127)%N
  then "\x" +:+ String (hex_digit (Str.code c / 16)) (String (hex_digit (Str.code c mod 16)) EmptyString)
  else String c EmptyString.

Fixpoint repr_chars (quote : ascii) (s : string) : string :=
  match s with
  | EmptyString => EmptyString
  | String c s' => repr_char quote c +:+ repr_chars quote s'
  end.

(** [repr(s)] of a string: single quotes, unless the string holds a single
    quote and no double quote. *)
Definition repr_str (s : string) : string :=
  let quote :=
    if Str.existsb (Ascii.eqb "'"%char) s && negb (Str.existsb (Ascii.eqb dquote) s)
    then dquote else "'"%char in
  String quote (repr_chars quote s +:+ String quote EmptyString).

Fixpoint py_repr (x : pyval) : string :=
  match x with
  | PNone => "None"
  | PBool true => "True"
  | PBool false => "False"
  | PInt n => pretty n
  | PStr s => repr_str s
  | PList l => "[" +:+ Str.join ", " (List.map py_repr l) +:+ "]"
  | PDict kvs =>
      "{" +:+ Str.join ", "
                (List.map (λ kv, repr_str (fst kv) +:+ ": " +:+ py_repr (snd kv)) kvs)
          +:+ "}"
  end.

(** [str(x)], which an f-string applies to an interpolated value. *)
Definition py_str (x : pyval) : string :=
  match x with
  | PStr s => s
  | _ => py_repr x
  end.

(** ** The output envelope

    A JSON object that holds a generation timestamp, a source label, a list
    under [items_key] and, under [count], the length of that list. *)
Definition is_envelope (items_key : string) (doc : pyval) : Prop :=
  ∃ fields timestamp source items,
    doc = PDict fields
    ∧ dict_lookup "last_updated" fields = Some (PStr timestamp)
    ∧ dict_lookup "source" fields = Some (PStr source)
    ∧ dict_lookup items_key fields = Some (PList items)
    ∧ dict_lookup "count" fields = Some (PInt (Z.of_nat (length items))).

(** ** The iNaturalist scraper ([scripts/scrape_inat.py]) *)

Module INat.

Definition licenses : list (string * string) :=
  [ ("cc-by", "CC BY");
    ("cc-by-nc", "CC BY-NC");
    ("cc-by-sa", "CC BY-SA");
    ("cc-by-nd", "CC BY-ND");
    ("cc-by-nc-sa", "CC BY-NC-SA");
    ("cc-by-nc-nd", "CC BY-NC-ND");
    ("cc0", "CC0 (Public Domain)") ].

Definition get_license_name (license_code : pyval) : result string :=
  key ← py_lower license_code;
  dflt ← py_upper license_code;
  Ok (default dflt (dict_lookup key licenses)).

Definition get_license_url (license_code : pyval) : result string :=
  let base := "https://creativecommons.org/licenses/" in
  code ← py_lower license_code;
  if String.eqb code "cc0"
  then Ok "https://creativecommons.org/publicdomain/zero/1.0/"
  else
    code ← py_lower license_code;
    let license_type := Str.replace "cc-" "" code in
    Ok (base +:+ license_type +:+ "/4.0/").

Definition get_fallback_observations : list pyval :=
  [ PDict
      [ ("id", PInt 123456789);
        ("image_url", PStr "https://via.placeholder.com/1024x768?text=iNaturalist+observation");
        ("species_common", PStr "Sample Species");
        ("species_scientific", PStr "Genus species");
        ("observer", PStr "Sample Observer");
        ("observer_login", PStr "observer");
        ("date", PStr "Dec 15, 2025");
        ("location", PStr "Sample Location");
        ("license_code", PStr "cc-by");
        ("license_name", PStr "CC BY");
        ("license_url", PStr "https://creativecommons.org/licenses/by/4.0/");
        ("obs_url", PStr "https://www.inaturalist.org");
        ("quality_grade", PStr "research") ] ].

(** The body of the loop [for obs in results] up to the [append]:
    [Ok None] is a [continue], [Ok (Some observation)] the record that the
    iteration appends, [Raise e] an exception that leaves the loop. *)
Definition normalize_observation (obs : pyval) : result (option pyval) :=
  photos ← py_get obs "photos" (PList []);
  if negb (py_truthy photos) then Ok None else
  photo ← py_index0 photos;
  taxon ← py_get obs "taxon" (PDict []);
  common_name ← py_get taxon "preferred_common_name" (PStr "");
  scientific_name ← py_get taxon "name" (PStr "Unknown species");
  user ← py_get obs "user" (PDict []);
  observer_login ← py_get user "login" (PStr "Unknown");
  observer_name ← py_get user "name" observer_login;
  place_guess ← py_get obs "place_guess" (PStr "");
  let location := if py_truthy place_guess then place_guess else PStr "Location obscured" in
  created_at ← py_get obs "created_at" (PStr "");
  observed_on ← py_get obs "observed_on_string" created_at;
  license_code ← py_get photo "license_code" PNone;
  if negb (py_truthy license_code) then Ok None else
  license_name ← get_license_name license_code;
  license_url ← get_license_url license_code;
  url ← py_get photo "url" (PStr "");
  image_url ← py_replace url "square" "large";
  id ← py_get obs "id" PNone;
  id' ← py_get obs "id" PNone;
  quality_grade ← py_get obs "quality_grade" (PStr "");
  Ok (Some (PDict
    [ ("id", id);
      ("image_url", PStr image_url);
      ("species_common", common_name);
      ("species_scientific", scientific_name);
      ("observer", observer_name);
      ("observer_login", observer_login);
      ("date", observed_on);
      ("location", location);
      ("license_code", license_code);
      ("license_name", PStr license_name);
      ("license_url", PStr license_url);
      ("obs_url", PStr ("https://www.inaturalist.org/observations/" +:+ py_str id'));
      ("quality_grade", quality_grade) ])).

(** The iterations that reach the [append], as a relation between the raw
    result and the record built from it. *)
Inductive normalized (obs : pyval) : pyval → Prop :=
| Normalized photos photo taxon common_name scientific_name user
    observer_login observer_name place_guess created_at observed_on
    license_code license_name license_url url image_url id quality_grade :
    py_get obs "photos" (PList []) = Ok photos →
    py_truthy photos = true →
    py_index0 photos = Ok photo →
    py_get obs "taxon" (PDict []) = Ok taxon →
    py_get taxon "preferred_common_name" (PStr "") = Ok common_name →
    py_get taxon "name" (PStr "Unknown species") = Ok scientific_name →
    py_get obs "user" (PDict []) = Ok user →
    py_get user "login" (PStr "Unknown") = Ok observer_login →
    py_get user "name" observer_login = Ok observer_name →
    py_get obs "place_guess" (PStr "") = Ok place_guess →
    py_get obs "created_at" (PStr "") = Ok created_at →
    py_get obs "observed_on_string" created_at = Ok observed_on →
    py_get photo "license_code" PNone = Ok license_code →
    py_truthy license_code = true →
    get_license_name license_code = Ok license_name →
    get_license_url license_code = Ok license_url →
    py_get photo "url" (PStr "") = Ok url →
    py_replace url "square" "large" = Ok image_url →
    py_get obs "id" PNone = Ok id →
    py_get obs "quality_grade" (PStr "") = Ok quality_grade →
    normalized obs
      (PDict
         [ ("id", id);
           ("image_url", PStr image_url);
           ("species_common", common_name);
           ("species_scientific", scientific_name);
           ("observer", observer_name);
           ("observer_login", observer_login);
           ("date", observed_on);
           ("location",
            if py_truthy place_guess then place_guess else PStr "Location obscured");
           ("license_code", license_code);
           ("license_name", PStr license_name);
           ("license_url", PStr license_url);
           ("obs_url", PStr ("https://www.inaturalist.org/observations/" +:+ py_str id));
           ("quality_grade", quality_grade) ]).

(** The loop [for obs in results], threading the list [observations]. *)
Fixpoint process_results (per_page : Z) (results observations : list pyval)
  : result (list pyval) :=
  match results with
  | [] => Ok observations
  | obs :: results' =>
      r ← normalize_observation obs;
      match r with
      | None => process_results per_page results' observations
      | Some observation =>
          let observations := observations ++ [observation] in
          if per_page <=? Z.of_nat (length observations)
          then Ok observations
          else process_results per_page results' observations
      end
  end.

(** The request parameters; [kwargs] holds the additional [--key=value]
    pairs of the command line. *)
Definition build_params (taxon_id quality_grade : string) (per_page : Z)
    (kwargs : list (string * pyval)) : list (string * pyval) :=
  let params :=
    [ ("per_page", PInt (Z.min per_page 200));
      ("order", PStr "desc");
      ("order_by", PStr "created_at");
      ("photos", PStr "true");
      ("photo_licensed", PStr "true");
      ("captive", PStr "false");
      ("verifiable", PStr "true") ] in
  let params :=
    if py_truthy (PStr taxon_id) then dict_set "taxon_id" (PStr taxon_id) params
    else params in
  let params :=
    if py_truthy (PStr quality_grade)
    then dict_set "quality_grade" (PStr quality_grade) params
    else params in
  dict_update params kwargs.

(** The body of the [try] block.  [api params] is what
    [requests.get(base_url, params=params, timeout=30)],
    [raise_for_status()] and [response.json()] produce: the decoded body or
    the exception that one of them raises. *)
Definition try_scrape (api : list (string * pyval) → result pyval)
    (taxon_id quality_grade : string) (per_page : Z)
    (kwargs : list (string * pyval)) : result (list pyval) :=
  data ← api (build_params taxon_id quality_grade per_page kwargs);
  results ← py_get data "results" (PList []);
  total_results ← py_get data "total_results" (PInt 0);
  _ ← py_len results;
  items ← py_iter results;
  process_results per_page items [].

Definition scrape_inat_observations (api : list (string * pyval) → result pyval)
    (taxon_id quality_grade : string) (per_page : Z)
    (kwargs : list (string * pyval)) : list pyval :=
  match try_scrape api taxon_id quality_grade per_page kwargs with
  | Ok observations => observations
  | Raise _ => get_fallback_observations
  end.

(** The file system is a finite map from paths to the JSON document held by
    the file; [now] is [datetime.now().isoformat()]. *)
Definition save_observations (now : string) (observations : list pyval)
    (taxon_id : string) (fs : gmap string pyval) : gmap string pyval :=
  let data :=
    PDict [ ("last_updated", PStr now);
            ("source", PStr "iNaturalist");
            ("taxon_id", PStr taxon_id);
            ("count", PInt (Z.of_nat (length observations)));
            ("observations", PList observations) ] in
  <["inatslide/observations.json" := data]> fs.

(** [main] after the command line has been read into [taxon_id],
    [quality_grade], [per_page] and [additional_params]. *)
Definition main (api : list (string * pyval) → result pyval) (now : string)
    (taxon_id quality_grade : string) (per_page : Z)
    (additional_params : list (string * pyval))
    (fs : gmap string pyval) : gmap string pyval :=
  let observations :=
    scrape_inat_observations api taxon_id quality_grade per_page additional_params in
  save_observations now observations taxon_id fs.

End INat.

(** ** Regular expressions

    The fragment of Python's [re] that the scripts use: literals, classes,
    sequence, alternation, greedy bounded repetition of a class, capture
    groups and the word boundary, matched by backtracking with Python's
    priorities (left alternative first, longest repetition first). *)

Module Re.

Inductive regex : Type :=
| Eps
| Chr (p : ascii → bool)
| Seq (r1 r2 : regex)
| Alt (r1 r2 : regex)
| Rep (p : ascii → bool) (lo : nat) (hi : option nat)
| Group (n : nat) (r : regex)
| WordB.

(** Captured groups, the latest capture first. *)
Definition caps : Type := list (nat * string).

(** A continuation receives the number of characters consumed since the
    start of the match, the character before the current position, the
    remaining text and the captures. *)
Definition cont : Type := nat → option ascii → string → caps → option (nat * caps).

Definition head (s : string) : option ascii :=
  match s with
  | EmptyString => None
  | String c _ => Some c
  end.

Definition word (c : option ascii) : bool :=
  match c with
  | Some c => Str.is_word c
  | None => false
  end.

Fixpoint rep (p : ascii → bool) (lo : nat) (hi : option nat) (k : cont)
    (pos : nat) (prev : option ascii) (rest : string) (cs : caps) {struct rest}
  : option (nat * caps) :=
  let stop := match lo with O => k pos prev rest cs | S _ => None end in
  match hi, rest with
  | Some O, _ => stop
  | _, EmptyString => stop
  | _, String c rest' =>
      if p c then
        match rep p (pred lo) (pred <$> hi) k (S pos) (Some c) rest' cs with
        | Some m => Some m
        | None => stop
        end
      else stop
  end.

Fixpoint run (r : regex) (k : cont) (pos : nat) (prev : option ascii)
    (rest : string) (cs : caps) {struct r} : option (nat * caps) :=
  match r with
  | Eps => k pos prev rest cs
  | Chr p =>
      match rest with
      | String c rest' => if p c then k (S pos) (Some c) rest' cs else None
      | EmptyString => None
      end
  | Seq r1 r2 => run r1 (run r2 k) pos prev rest cs
  | Alt r1 r2 =>
      match run r1 k pos prev rest cs with
      | Some m => Some m
      | None => run r2 k pos prev rest cs
      end
  | Rep p lo hi => rep p lo hi k pos prev rest cs
  | Group n r1 =>
      run r1 (λ pos' prev' rest' cs',
                k pos' prev' rest' ((n, Str.take (pos' - pos) rest) :: cs'))
          pos prev rest cs
  | WordB => if xorb (word prev) (word (head rest)) then k pos prev rest cs else None
  end.

(** A match that starts at the current position: its length and groups. *)
Definition match_at (r : regex) (prev : option ascii) (s : string)
  : option (nat * caps) :=
  run r (λ pos _ _ cs, Some (pos, cs)) 0%nat prev s [].

(** [re.search]: the leftmost match. *)
Fixpoint search_from (r : regex) (prev : option ascii) (s : string) : option caps :=
  match match_at r prev s with
  | Some (_, cs) => Some cs
  | None =>
      match s with
      | String c s' => search_from r (Some c) s'
      | EmptyString => None
      end
  end.

Definition search (r : regex) (s : string) : option caps := search_from r None s.

(** [re.findall]: the matches from left to right, without overlap. [skip]
    counts the characters of the last match still to be passed over. *)
Fixpoint findall_go (r : regex) (skip : nat) (prev : option ascii) (s : string)
    {struct s} : list caps :=
  match skip with
  | S k =>
      match s with
      | String c s' => findall_go r k (Some c) s'
      | EmptyString => []
      end
  | O =>
      match match_at r prev s with
      | Some (n, cs) =>
          cs :: match s with
                | String c s' => findall_go r (n - 1) (Some c) s'
                | EmptyString => []
                end
      | None =>
          match s with
          | String c s' => findall_go r 0 (Some c) s'
          | EmptyString => []
          end
      end
  end.

(** The text of group [n]; a group that took no part in the match reads as
    the empty string. *)
Fixpoint lookup_group (n : nat) (cs : caps) : option string :=
  match cs with
  | [] => None
  | (n', v) :: cs' => if Nat.eqb n n' then Some v else lookup_group n cs'
  end.

Definition group (n : nat) (cs : caps) : string := default "" (lookup_group n cs).

(** [re.findall] for a pattern whose matches are read at group 1. *)
Definition findall (r : regex) (s : string) : list string :=
  group 1 <$> findall_go r 0 None s.

(** *** Pattern constructors *)

Definition lit (c : ascii) : regex := Chr (Ascii.eqb c).

(** A literal under [re.IGNORECASE]. *)
Definition ilit (c : ascii) : regex :=
  Chr (λ x, Ascii.eqb (Str.lower_char x) (Str.lower_char c)).

Fixpoint str (s : string) : regex :=
  match s with
  | EmptyString => Eps
  | String c s' => Seq (lit c) (str s')
  end.

Fixpoint istr (s : string) : regex :=
  match s with
  | EmptyString => Eps
  | String c s' => Seq (ilit c) (istr s')
  end.

Definition one_of (cs : string) : ascii → bool := λ x, Str.existsb (Ascii.eqb x) cs.

(** [p*] and [p?] on a class *)
Definition star (p : ascii → bool) : regex := Rep p 0 None.
Definition opt (p : ascii → bool) : regex := Rep p 0 (Some 1%nat).

(** [(\d{lo,hi})] as group 1 *)
Definition digits (lo hi : nat) : regex := Group 1 (Rep Str.is_digit lo (Some hi)).

(** [(\d+)] as group 1 *)
Definition digits1 : regex := Group 1 (Rep Str.is_digit 1 None).

Fixpoint seq (rs : list regex) : regex :=
  match rs with
  | [] => Eps
  | r :: rs' => Seq r (seq rs')
  end.

(** Patterns in which group 1, wherever it occurs, is a repetition of
    [\d]. *)
Inductive digit_groups : regex → Prop :=
| dg_group1 lo hi : digit_groups (Group 1 (Rep Str.is_digit lo hi))
| dg_group n r : n ≠ 1%nat → digit_groups r → digit_groups (Group n r)
| dg_eps : digit_groups Eps
| dg_chr p : digit_groups (Chr p)
| dg_seq r1 r2 : digit_groups r1 → digit_groups r2 → digit_groups (Seq r1 r2)
| dg_alt r1 r2 : digit_groups r1 → digit_groups r2 → digit_groups (Alt r1 r2)
| dg_rep p lo hi : digit_groups (Rep p lo hi)
| dg_wordb : digit_groups WordB.

End Re.

(** A string of digits (possibly empty). *)
Definition digits_only (s : string) : Prop := Str.forallb Str.is_digit s = true.

(** Captures in which every value of group 1 is a string of digits. *)
Definition caps_ok (cs : Re.caps) : Prop :=
  Forall (λ nv, nv.1 = 1%nat → digits_only nv.2) cs.

(** ** The eBird scrapers *)

(** What the two eBird scripts share word for word. *)
Module EBird.

Definition get_fallback_assets : list string :=
  [ "629849023"; "629848993"; "629848963"; "629848933";
    "629848903"; "629848873"; "629848843"; "629848813" ].

(** The test [len(asset) >= 8] of the loop. *)
Definition long_enough (asset : string) : bool := (8 <=? String.length asset)%nat.

(** The loop [for asset in asset_numbers] that removes duplicates, threading
    the list [unique_assets] and the set [seen]; [cap] is the bound of the
    [break] (15 in the static script, 50 in the browser script). *)
Fixpoint unique_loop (cap : nat) (asset_numbers unique_assets : list string)
    (seen : gset string) : list string :=
  match asset_numbers with
  | [] => unique_assets
  | asset :: asset_numbers' =>
      if bool_decide (asset ∉ seen) && long_enough asset
      then
        let unique_assets := unique_assets ++ [asset] in
        let seen := {[asset]} ∪ seen in
        if (cap <=? length unique_assets)%nat
        then unique_assets
        else unique_loop cap asset_numbers' unique_assets seen
      else unique_loop cap asset_numbers' unique_assets seen
  end.

(** A qualifying identifier: numeric and of length 8 or more. *)
Definition qualifying (a : string) : bool := Str.isdigit a && long_enough a.

(** Deduplication by first occurrence: every string is kept where it first
    occurs and dropped from the rest of the list. *)
Fixpoint first_occurrences (l : list string) : list string :=
  match l with
  | [] => []
  | a :: l' => a :: filter (λ b, b ≠ a) (first_occurrences l')
  end.

(** The number of distinct qualifying identifiers of a list of matches. *)
Definition distinct_qualifying (l : list string) : nat :=
  size (list_to_set (filter qualifying l) : gset string).

(** The order of the heuristics as the specification words it: anchor-tag
    href pattern, image-tag src pattern, explicit data attributes,
    embedded-JSON field patterns, raw-text ML patterns. *)
Definition spec_heuristic_order (anchor image data json ml : list string)
  : list string :=
  anchor ++ image ++ data ++ json ++ ml.

Definition envelope (now : string) (asset_numbers : list string) : pyval :=
  PDict [ ("last_updated", PStr now);
          ("source", PStr "eBird Top Photos (Last 7 Days)");
          ("count", PInt (Z.of_nat (length asset_numbers)));
          ("assets", PList (PStr <$> asset_numbers)) ].

End EBird.

(** *** The static-HTML scraper ([birdslide/scripts/scrape_ebird.py]) *)

Module EBirdStatic.

(** What the HTML parser hands to the script, in document order:
    the [href] of every [a] tag and the [src] of every [img] tag ([None]
    when the tag has no such attribute), the [data-asset-id] of every
    element that has one, and [soup.get_text()]. *)
Record page : Type := {
  a_hrefs : list (option string);
  img_srcs : list (option string);
  data_asset_ids : list string;
  page_text : string
}.

(** [macaulaylibrary\.org/asset/(\d+)] *)
Definition re_ml_link : Re.regex := Re.Seq (Re.str "macaulaylibrary.org/asset/") Re.digits1.
(** [/asset/(\d+)] *)
Definition re_asset : Re.regex := Re.Seq (Re.str "/asset/") Re.digits1.
(** [(\d{8,12})] *)
Definition re_number : Re.regex := Re.digits 8 12.
(** [\b(\d{8,12})\b] *)
Definition re_number_word : Re.regex := Re.seq [Re.WordB; Re.digits 8 12; Re.WordB].
(** [ML(\d{8,12})] *)
Definition re_ml_text : Re.regex := Re.Seq (Re.str "ML") (Re.digits 8 12).

(** [soup.find_all(tag, attr=pattern)]: the attribute values that the
    pattern finds a match in. *)
Definition find_all (r : Re.regex) (attrs : list (option string)) : list string :=
  omap (λ a, v ← a; if Re.search r v is Some _ then Some v else None) attrs.

(** The four stages that fill [asset_numbers]. *)
Definition from_links (pg : page) (asset_numbers : list string) : list string :=
  let ml_links := find_all re_ml_link (a_hrefs pg) in
  fold_left (λ asset_numbers href,
               match Re.search re_asset href with
               | Some m => asset_numbers ++ [Re.group 1 m]
               | None => asset_numbers
               end) ml_links asset_numbers.

Definition from_images (pg : page) (asset_numbers : list string) : list string :=
  let ml_images := find_all re_number (img_srcs pg) in
  fold_left (λ asset_numbers src,
               let matches := Re.findall re_number_word src in
               asset_numbers ++ matches) ml_images asset_numbers.

Definition from_data (pg : page) (asset_numbers : list string) : list string :=
  let elements_with_data := data_asset_ids pg in
  fold_left (λ asset_numbers asset_id,
               if py_truthy (PStr asset_id) && Str.isdigit asset_id
               then asset_numbers ++ [asset_id]
               else asset_numbers) elements_with_data asset_numbers.

Definition from_text (pg : page) (asset_numbers : list string) : list string :=
  let text_matches := Re.findall re_ml_text (page_text pg) in
  asset_numbers ++ text_matches.

Definition collect (pg : page) : list string :=
  let asset_numbers := [] in
  let asset_numbers := from_links pg asset_numbers in
  let asset_numbers := from_images pg asset_numbers in
  let asset_numbers := from_data pg asset_numbers in
  let asset_numbers := from_text pg asset_numbers in
  asset_numbers.

(** The matches of each heuristic on its own, in document order. *)
Definition link_matches (pg : page) : list string :=
  find_all re_ml_link (a_hrefs pg) ≫=
    λ href, match Re.search re_asset href with
            | Some m => [Re.group 1 m]
            | None => []
            end.

Definition image_matches (pg : page) : list string :=
  find_all re_number (img_srcs pg) ≫= Re.findall re_number_word.

Definition data_matches (pg : page) : list string :=
  data_asset_ids pg ≫=
    λ asset_id, if py_truthy (PStr asset_id) && Str.isdigit asset_id
                then [asset_id] else [].

Definition text_matches (pg : page) : list string :=
  Re.findall re_ml_text (page_text pg).

(** The concatenation in the order of the specification; the static script
    has no embedded-JSON heuristic. *)
Definition spec_collect (pg : page) : list string :=
  EBird.spec_heuristic_order
    (link_matches pg) (image_matches pg) (data_matches pg) [] (text_matches pg).

(** The identifiers on the surfaces of the page, read off the page surface
    by surface and not off the list that the script gathers: what the pattern
    of each heuristic matches in every anchor, in every image, in every
    [data-asset-id] attribute and in the text of the page. *)
Definition on_surfaces (pg : page) : list string :=
  link_matches pg ++ image_matches pg ++ data_matches pg ++ text_matches pg.

(** The number N of distinct qualifying identifiers on the surfaces of the
    page. *)
Definition distinct_on_page (pg : page) : nat :=
  EBird.distinct_qualifying (on_surfaces pg).

(** The long enough matches of the page, each at its first occurrence. *)
Definition first_occurrences_long (pg : page) : list string :=
  EBird.first_occurrences (filter EBird.long_enough (collect pg)).

(** [fetched] is the outcome of [requests.get], [raise_for_status] and the
    HTML parser: the page, or the exception raised. *)
Definition scrape_ebird_photos (fetched : result page) : list string :=
  match fetched with
  | Ok pg =>
      let asset_numbers := collect pg in
      let unique_assets := EBird.unique_loop 15 asset_numbers [] ∅ in
      let unique_assets :=
        match unique_assets with
        | [] => [ "629849023"; "629848993"; "629848963"; "629848933";
                  "629848903"; "629848873"; "629848843"; "629848813" ]
        | _ => unique_assets
        end in
      take 12 unique_assets
  | Raise _ => EBird.get_fallback_assets
  end.

Definition save_assets (now : string) (asset_numbers : list string)
    (fs : gmap string pyval) : gmap string pyval :=
  <["assets.json" := EBird.envelope now asset_numbers]> fs.

Definition main (fetched : result page) (now : string) (fs : gmap string pyval)
  : gmap string pyval :=
  let asset_numbers := scrape_ebird_photos fetched in
  save_assets now asset_numbers fs.

End EBirdStatic.

(** *** The browser-rendered scraper ([scripts/scrape_ebird.py]) *)

Module EBirdBrowser.

(** What the browser hands to the script: the [src] of every [img] element
    and the [href] of every [a] element of the rendered DOM, in document
    order ([None] when the attribute is missing), and [page.content()].
    The queries on the DOM are taken to answer: an exception inside one of
    the two inner [try] blocks, which would cut that loop short, is not
    modelled. *)
Record page : Type := {
  img_srcs : list (option string);
  link_hrefs : list (option string);
  page_content : string
}.

Definition space_star : Re.regex := Re.star Str.is_space.
Definition quote_opt : Re.regex := Re.opt (Ascii.eqb dquote).
Definition any_quote_opt : Re.regex := Re.opt (Re.one_of (String dquote "'")).

(** [(\d{8,12})] *)
Definition re_number : Re.regex := Re.digits 8 12.
(** [/asset/(\d{8,12})] *)
Definition re_asset : Re.regex := Re.Seq (Re.str "/asset/") (Re.digits 8 12).
(** Pattern 1: [macaulaylibrary\.org/asset/(\d{8,12})] *)
Definition pattern1 : Re.regex :=
  Re.Seq (Re.str "macaulaylibrary.org/asset/") (Re.digits 8 12).
(** Pattern 2: [ML(\d{8,12})] *)
Definition pattern2 : Re.regex := Re.Seq (Re.str "ML") (Re.digits 8 12).
(** Patterns 3 and 4: the field name in double quotes, [\s*:\s*], an
    optional double quote, [(\d{8,12})], an optional double quote. *)
Definition json_field (name : string) : Re.regex :=
  Re.seq [ Re.lit dquote; Re.str name; Re.lit dquote; space_star; Re.lit ":"%char;
           space_star; quote_opt; Re.digits 8 12; quote_opt ].
Definition pattern3 : Re.regex := json_field "catalogId".
Definition pattern4 : Re.regex := json_field "assetId".
(** Pattern 5: [/(\d{9,12})\.(jpg|jpeg|png|webp)] under [re.IGNORECASE] *)
Definition pattern5 : Re.regex :=
  Re.seq [ Re.ilit "/"%char; Re.digits 9 12; Re.ilit "."%char;
           Re.Group 2 (Re.Alt (Re.istr "jpg") (Re.Alt (Re.istr "jpeg")
                        (Re.Alt (Re.istr "png") (Re.istr "webp")))) ].
(** Pattern 6: [(?:data-asset-id|assetId|catalogId)], an optional quote,
    [\s*[:=]\s*], an optional quote, [(\d{8,12})], under [re.IGNORECASE] *)
Definition pattern6 : Re.regex :=
  Re.seq [ Re.Alt (Re.istr "data-asset-id") (Re.Alt (Re.istr "assetId") (Re.istr "catalogId"));
           any_quote_opt; space_star; Re.Chr (Re.one_of ":="); space_star;
           any_quote_opt; Re.digits 8 12 ].

(** The stages that fill [asset_numbers]. *)
Definition from_images (pg : page) (asset_numbers : list string) : list string :=
  let img_elements := img_srcs pg in
  fold_left (λ asset_numbers src,
               match src with
               | Some src =>
                   if py_truthy (PStr src)
                   then
                     let matches := Re.findall re_number src in
                     asset_numbers ++ matches
                   else asset_numbers
               | None => asset_numbers
               end) (take 20 img_elements) asset_numbers.

Definition from_links (pg : page) (asset_numbers : list string) : list string :=
  let link_elements := link_hrefs pg in
  fold_left (λ asset_numbers href,
               match href with
               | Some href =>
                   if py_truthy (PStr href) && Str.contains "macaulaylibrary.org/asset" href
                   then
                     let matches := Re.findall re_asset href in
                     asset_numbers ++ matches
                   else asset_numbers
               | None => asset_numbers
               end) (take 50 link_elements) asset_numbers.

Definition from_pattern (r : Re.regex) (pg : page) (asset_numbers : list string)
  : list string :=
  asset_numbers ++ Re.findall r (page_content pg).

Definition collect (pg : page) : list string :=
  let asset_numbers := [] in
  let asset_numbers := from_images pg asset_numbers in
  let asset_numbers := from_links pg asset_numbers in
  let asset_numbers := from_pattern pattern1 pg asset_numbers in
  let asset_numbers := from_pattern pattern2 pg asset_numbers in
  let asset_numbers := from_pattern pattern3 pg asset_numbers in
  let asset_numbers := from_pattern pattern4 pg asset_numbers in
  let asset_numbers := from_pattern pattern5 pg asset_numbers in
  let asset_numbers := from_pattern pattern6 pg asset_numbers in
  asset_numbers.

(** The matches of each heuristic on its own, in document order. *)
Definition image_matches (pg : page) : list string :=
  take 20 (img_srcs pg) ≫=
    λ src, match src with
           | Some src => if py_truthy (PStr src) then Re.findall re_number src else []
           | None => []
           end.

Definition link_matches (pg : page) : list string :=
  take 50 (link_hrefs pg) ≫=
    λ href, match href with
            | Some href =>
                if py_truthy (PStr href) && Str.contains "macaulaylibrary.org/asset" href
                then Re.findall re_asset href else []
            | None => []
            end.

Definition pattern_matches (r : Re.regex) (pg : page) : list string :=
  Re.findall r (page_content pg).

(** The concatenation in the order of the specification.  The asset-URL
    pattern 1 is counted with the anchor-tag href heuristic, the image-path
    pattern 5 with the image-tag src heuristic, pattern 6 is the
    data-attribute heuristic, patterns 3 and 4 the embedded-JSON heuristic
    and pattern 2 the raw-text ML heuristic. *)
Definition spec_collect (pg : page) : list string :=
  EBird.spec_heuristic_order
    (link_matches pg ++ pattern_matches pattern1 pg)
    (image_matches pg ++ pattern_matches pattern5 pg)
    (pattern_matches pattern6 pg)
    (pattern_matches pattern3 pg ++ pattern_matches pattern4 pg)
    (pattern_matches pattern2 pg).

(** What the image heuristic matches in the [src] of one image, and the
    anchor heuristic in the [href] of one anchor. *)
Definition src_matches (src : option string) : list string :=
  match src with
  | Some src => if py_truthy (PStr src) then Re.findall re_number src else []
  | None => []
  end.

Definition href_matches (href : option string) : list string :=
  match href with
  | Some href =>
      if py_truthy (PStr href) && Str.contains "macaulaylibrary.org/asset" href
      then Re.findall re_asset href else []
  | None => []
  end.

(** The identifiers on the surfaces of a page made of the given images,
    anchors and content, read off surface by surface and not off the list
    that the script gathers: what the heuristics match in every one of the
    images, in every one of the anchors and in the content. *)
Definition on_surfaces (imgs links : list (option string)) (content : string)
  : list string :=
  (imgs ≫= src_matches) ++ (links ≫= href_matches) ++
  Re.findall pattern1 content ++ Re.findall pattern2 content ++
  Re.findall pattern3 content ++ Re.findall pattern4 content ++
  Re.findall pattern5 content ++ Re.findall pattern6 content.

(** The identifiers on the surfaces of the whole page: all its images and
    all its anchors. *)
Definition on_whole_page (pg : page) : list string :=
  on_surfaces (img_srcs pg) (link_hrefs pg) (page_content pg).

(** The identifiers on the part of the page that the script reads: the
    first 20 images, the first 50 anchors and the content. *)
Definition on_part_read (pg : page) : list string :=
  on_surfaces (take 20 (img_srcs pg)) (take 50 (link_hrefs pg)) (page_content pg).

(** The number N of distinct qualifying identifiers on the surfaces of the
    whole page, and the number on the part that the script reads. *)
Definition distinct_on_page (pg : page) : nat :=
  EBird.distinct_qualifying (on_whole_page pg).

Definition distinct_in_part_read (pg : page) : nat :=
  EBird.distinct_qualifying (on_part_read pg).

(** The long enough matches of the page, each at its first occurrence. *)
Definition first_occurrences_long (pg : page) : list string :=
  EBird.first_occurrences (filter EBird.long_enough (collect pg)).

(** [fetched] is the outcome of launching the browser, navigating and
    reading the page: the page, or the exception raised. *)
Definition scrape_ebird_photos (fetched : result page) : list string :=
  match fetched with
  | Ok pg =>
      let asset_numbers := collect pg in
      let unique_assets := EBird.unique_loop 50 asset_numbers [] ∅ in
      match unique_assets with
      | [] => EBird.get_fallback_assets
      | _ => take 12 unique_assets
      end
  | Raise _ => EBird.get_fallback_assets
  end.

Definition save_assets (now : string) (asset_numbers : list string)
    (fs : gmap string pyval) : gmap string pyval :=
  <["birdslide/assets.json" := EBird.envelope now asset_numbers]> fs.

Definition main (fetched : result page) (now : string) (fs : gmap string pyval)
  : gmap string pyval :=
  let asset_numbers := scrape_ebird_photos fetched in
  save_assets now asset_numbers fs.

End EBirdBrowser.

(** ** Sample inputs *)

Module Samples.

(** A page on which no heuristic finds anything. *)
Definition empty_static : EBirdStatic.page :=
  {| EBirdStatic.a_hrefs := []; EBirdStatic.img_srcs := [];
     EBirdStatic.data_asset_ids := []; EBirdStatic.page_text := "" |}.

Definition empty_browser : EBirdBrowser.page :=
  {| EBirdBrowser.img_srcs := []; EBirdBrowser.link_hrefs := [];
     EBirdBrowser.page_content := "" |}.

(** A static page with a link, two images, a data attribute and ML numbers
    in the text; the identifier 629849023 occurs on three surfaces. *)
Definition catalog_static : EBirdStatic.page :=
  {| EBirdStatic.a_hrefs :=
       [ Some "https://macaulaylibrary.org/asset/629849023"; None;
         Some "https://ebird.org/about" ];
     EBirdStatic.img_srcs :=
       [ Some "https://cdn.download.ams.birds.cornell.edu/api/v2/asset/629849023/480";
         Some "https://cdn.download.ams.birds.cornell.edu/api/v2/asset/629848993/480";
         Some "/logo.png" ];
     EBirdStatic.data_asset_ids := [ "629848963"; ""; "1234"; "abc" ];
     EBirdStatic.page_text := "Macaulay Library ML629849023 and ML629848933" |}.

(** A rendered page in which an anchor to asset 22222222 wraps an image of
    asset 11111111. *)
Definition linked_image : EBirdBrowser.page :=
  {| EBirdBrowser.img_srcs :=
       [ Some "https://cdn.download.ams.birds.cornell.edu/api/v2/asset/11111111/480" ];
     EBirdBrowser.link_hrefs := [ Some "https://macaulaylibrary.org/asset/22222222" ];
     EBirdBrowser.page_content :=
       "<a href='https://macaulaylibrary.org/asset/22222222'>"
       +:+ "<img src='https://cdn.download.ams.birds.cornell.edu/api/v2/asset/11111111/480'>"
       +:+ "</a>" |}.

(** A rendered page of twenty logos followed by one photo: its only
    identifier is in the 21st image.  The content is the markup of these
    images. *)
Definition img_tag (src : string) : string :=
  "<img src=" +:+ String dquote src +:+ String dquote ">".

Definition late_image : EBirdBrowser.page :=
  let logo := "/logo.png" in
  let photo := "https://cdn.download.ams.birds.cornell.edu/api/v2/asset/55555555/480" in
  {| EBirdBrowser.img_srcs := replicate 20 (Some logo) ++ [ Some photo ];
     EBirdBrowser.link_hrefs := [];
     EBirdBrowser.page_content :=
       "<html><head></head><body>"
       +:+ Str.join "" (replicate 20 (img_tag logo)) +:+ img_tag photo
       +:+ "</body></html>" |}.

(** An API result of a user who has set no display name: the API sends the
    key [name] with the value [null]. *)
Definition unnamed_observer : pyval :=
  PDict
    [ ("id", PInt 7);
      ("photos",
       PList [ PDict [ ("url", PStr "https://static.inaturalist.org/photos/1/square.jpg");
                       ("license_code", PStr "cc-by") ] ]);
      ("user", PDict [ ("login", PStr "jdoe"); ("name", PNone) ]) ].

(** An API result with a public-domain photo. *)
Definition cc0_observation : pyval :=
  PDict
    [ ("id", PInt 8);
      ("photos",
       PList [ PDict [ ("url", PStr "https://static.inaturalist.org/photos/2/square.jpg");
                       ("license_code", PStr "cc0") ] ]);
      ("taxon", PDict [ ("name", PStr "Carcharodon carcharias");
                        ("preferred_common_name", PStr "White Shark") ]);
      ("user", PDict [ ("login", PStr "asmith"); ("name", PStr "A. Smith") ]);
      ("place_guess", PStr "Monterey Bay");
      ("observed_on_string", PStr "2025-12-01");
      ("quality_grade", PStr "research") ].

(** An API result without photos, and one whose photo has no license. *)
Definition no_photo : pyval := PDict [ ("id", PInt 9); ("photos", PList []) ].
Definition no_license : pyval :=
  PDict [ ("id", PInt 10);
          ("photos", PList [ PDict [ ("url", PStr "https://static.inaturalist.org/photos/3/square.jpg");
                                     ("license_code", PNone) ] ]) ].

(** A photo URL in which the word square occurs twice. *)
Definition square_twice : string := "https://x/square/square.jpg".

(** A stub API that answers every request with the given results, and one
    whose transport times out. *)
Definition stub_api (results : list pyval) : list (string * pyval) → result pyval :=
  λ _, Ok (PDict [ ("total_results", PInt (Z.of_nat (length results)));
                   ("results", PList results) ]).
Definition timeout_api : list (string * pyval) → result pyval :=
  λ _, Raise RequestException.

End Samples.

(** ** The language of a pattern

    The declarative reading of the patterns: [matches r w cs] holds when the
    pattern [r] can match the text [w] while capturing the groups [cs] (the
    latest capture first).  The word boundary reads no text; whether it
    holds depends on the surrounding characters, which this relation leaves
    open. *)

Module Lang.

Inductive matches : Re.regex → string → Re.caps → Prop :=
| m_eps : matches Re.Eps EmptyString []
| m_chr p c : p c = true → matches (Re.Chr p) (String c EmptyString) []
| m_seq r1 r2 w1 w2 cs1 cs2 :
    matches r1 w1 cs1 → matches r2 w2 cs2 →
    matches (Re.Seq r1 r2) (w1 +:+ w2) (cs2 ++ cs1)
| m_alt_l r1 r2 w cs : matches r1 w cs → matches (Re.Alt r1 r2) w cs
| m_alt_r r1 r2 w cs : matches r2 w cs → matches (Re.Alt r1 r2) w cs
| m_rep p lo hi w :
    Str.forallb p w = true →
    (lo ≤ String.length w)%nat →
    (∀ h, hi = Some h → (String.length w ≤ h)%nat) →
    matches (Re.Rep p lo hi) w []
| m_group n r w cs : matches r w cs → matches (Re.Group n r) w ((n, w) :: cs)
| m_wordb : matches Re.WordB EmptyString [].

(** Patterns in which every match captures group 1. *)
Inductive captures_group1 : Re.regex → Prop :=
| c_group r : captures_group1 (Re.Group 1 r)
| c_group_in n r : captures_group1 r → captures_group1 (Re.Group n r)
| c_seq_l r1 r2 : captures_group1 r1 → captures_group1 (Re.Seq r1 r2)
| c_seq_r r1 r2 : captures_group1 r2 → captures_group1 (Re.Seq r1 r2)
| c_alt r1 r2 : captures_group1 r1 → captures_group1 r2 → captures_group1 (Re.Alt r1 r2).

(** Patterns in which group 1, wherever it occurs, is [\d{lo,hi}] with
    [lo0 <= lo] and [hi <= hi0]. *)
Inductive sized_group1 (lo0 hi0 : nat) : Re.regex → Prop :=
| s_group1 lo hi :
    (lo0 ≤ lo)%nat → (hi ≤ hi0)%nat →
    sized_group1 lo0 hi0 (Re.Group 1 (Re.Rep Str.is_digit lo (Some hi)))
| s_group n r : n ≠ 1%nat → sized_group1 lo0 hi0 r → sized_group1 lo0 hi0 (Re.Group n r)
| s_eps : sized_group1 lo0 hi0 Re.Eps
| s_chr p : sized_group1 lo0 hi0 (Re.Chr p)
| s_seq r1 r2 :
    sized_group1 lo0 hi0 r1 → sized_group1 lo0 hi0 r2 → sized_group1 lo0 hi0 (Re.Seq r1 r2)
| s_alt r1 r2 :
    sized_group1 lo0 hi0 r1 → sized_group1 lo0 hi0 r2 → sized_group1 lo0 hi0 (Re.Alt r1 r2)
| s_rep p lo hi : sized_group1 lo0 hi0 (Re.Rep p lo hi)
| s_wordb : sized_group1 lo0 hi0 Re.WordB.

End Lang.

(** [g] occurs in [s] as a substring. *)
Definition occurs_in (g s : string) : Prop := ∃ pre post, s = pre +:+ g +:+ post.

(** A string of [lo] to [hi] digits. *)
Definition digits_between (lo hi : nat) (g : string) : Prop :=
  digits_only g ∧ (lo ≤ String.length g ≤ hi)%nat.

(** ** Further vocabulary for the iNaturalist scraper *)

(** A string of the ASCII range (every code below 128).  On such strings
    [Str.lower] and [Str.upper] are [str.lower] and [str.upper]; beyond it the
    case mappings of Python change the length of a string or leave the range
    (the upper case of the sharp s is SS) and are not modelled. *)
Definition ascii_only (s : string) : Prop :=
  Str.forallb (λ c, (Str.code c <? 128)%N) s = true.

(** The records of the results that yield one, in the order of the
    results. *)
Definition records_of (results : list pyval) : list pyval :=
  omap (λ obs, match INat.normalize_observation obs with
               | Ok (Some observation) => Some observation
               | _ => None
               end) results.

(** The results whose loop iteration ends without an exception. *)
Definition no_exception (obs : pyval) : Prop :=
  ∃ r, INat.normalize_observation obs = Ok r.

(** The number of records at which the loop stops. *)
Definition stop_count (per_page : Z) : nat := Z.to_nat (Z.max 1 per_page).

(** The keys of an observation record, in their order. *)
Definition record_keys : list string :=
  [ "id"; "image_url"; "species_common"; "species_scientific"; "observer";
    "observer_login"; "date"; "location"; "license_code"; "license_name";
    "license_url"; "obs_url"; "quality_grade" ].

Definition is_string (v : option pyval) : Prop := ∃ s, v = Some (PStr s).

(** An observation record as the slideshow reads it. *)
Definition is_record (o : pyval) : Prop :=
  ∃ fields,
    o = PDict fields
    ∧ fields.*1 = record_keys
    ∧ is_string (dict_lookup "image_url" fields)
    ∧ is_string (dict_lookup "license_name" fields)
    ∧ is_string (dict_lookup "license_url" fields)
    ∧ is_string (dict_lookup "obs_url" fields)
    ∧ (∃ code, dict_lookup "license_code" fields = Some (PStr code) ∧ code ≠ EmptyString)
    ∧ (∃ location, dict_lookup "location" fields = Some location
                   ∧ py_truthy location = true).

Module MoreSamples.

(** Two rendered pages that differ in the 21st image only. *)
Definition twenty_logos : list (option string) := replicate 20 (Some "/logo.png").

Definition gallery : EBirdBrowser.page :=
  {| EBirdBrowser.img_srcs :=
       Some "https://cdn.download.ams.birds.cornell.edu/api/v2/asset/44444444/480"
       :: twenty_logos;
     EBirdBrowser.link_hrefs := [];
     EBirdBrowser.page_content := "" |}.

Definition gallery_21st : EBirdBrowser.page :=
  {| EBirdBrowser.img_srcs :=
       Some "https://cdn.download.ams.birds.cornell.edu/api/v2/asset/44444444/480"
       :: twenty_logos
       ++ [ Some "https://cdn.download.ams.birds.cornell.edu/api/v2/asset/55555555/480" ];
     EBirdBrowser.link_hrefs := [];
     EBirdBrowser.page_content := "" |}.

(** An API result whose taxon is null: reading the taxon raises. *)
Definition null_taxon : pyval :=
  PDict [ ("id", PInt 11);
          ("photos", PList [ PDict [ ("url", PStr "https://static.inaturalist.org/photos/4/square.jpg");
                                     ("license_code", PStr "cc-by") ] ]);
          ("taxon", PNone) ].

End MoreSamples.

(** ** The command line of the iNaturalist script ([main], lines 203 to 230)

    [main] reads [sys.argv[1:]] outside of any [try]: an exception raised
    here ends the script before a request is made or a file is written. *)

Module INatCli.

(** The exceptions that end the script. *)
Inductive uncaught : Type :=
| UncaughtValueError
| UncaughtTypeError
| UncaughtIndexError.

Inductive run (A : Type) : Type :=
| Finished (a : A)
| Crashed (e : uncaught).
Arguments Finished {A} a.
Arguments Crashed {A} e.

(** [s.split('=', 1)]: the text before the first [=] and, when there is
    one, the text after it. *)
Fixpoint split1 (s : string) : string * option string :=
  match s with
  | EmptyString => (EmptyString, None)
  | String c s' =>
      if Ascii.eqb c "="%char then (EmptyString, Some s')
      else (String c (split1 s').1, (split1 s').2)
  end.

(** [int(s)] on the ASCII range: white space around (tab, LF, VT, FF, CR
    and the space), an optional sign, and decimal digits in which single
    underscores may stand between two digits.  [None] stands for
    [ValueError].  The bound that recent interpreters put on the number of
    digits (4300 by default) is not modelled. *)
Definition int_space (c : ascii) : bool :=
  Str.between 9 13 c || Ascii.eqb c " "%char.

Fixpoint lstrip (s : string) : string :=
  match s with
  | String c s' => if int_space c then lstrip s' else s
  | EmptyString => EmptyString
  end.

Definition strip (s : string) : string := String.rev (lstrip (String.rev (lstrip s))).

Fixpoint int_digits (acc : Z) (after_digit : bool) (s : string) : option Z :=
  match s with
  | EmptyString => if after_digit then Some acc else None
  | String c s' =>
      if Str.is_digit c
      then int_digits (10 * acc + Z.of_N (Str.code c - 48)) true s'
      else if Ascii.eqb c "_"%char && after_digit
           then match s' with
                | EmptyString => None
                | _ => int_digits acc false s'
                end
           else None
  end.

Definition py_int (s : string) : option Z :=
  match strip s with
  | String "+" digits => int_digits 0 false digits
  | String "-" digits => Z.opp <$> int_digits 0 false digits
  | digits => int_digits 0 false digits
  end.

(** The four variables that the loop over the arguments sets. *)
Record args : Type := {
  taxon_id : string;
  quality_grade : string;
  per_page : Z;
  additional_params : list (string * pyval)
}.

Definition initial : args :=
  {| taxon_id := ""; quality_grade := ""; per_page := 30; additional_params := [] |}.

(** [arg.split('=', 1)[1]] *)
Definition after_equals (arg : string) : run string :=
  match (split1 arg).2 with
  | Some value => Finished value
  | None => Crashed UncaughtIndexError
  end.

(** One iteration of [for arg in sys.argv[1:]]. *)
Definition step (st : args) (arg : string) : run args :=
  if Str.startswith "--taxon=" arg then
    match after_equals arg with
    | Finished value =>
        Finished {| taxon_id := value; quality_grade := quality_grade st;
                    per_page := per_page st; additional_params := additional_params st |}
    | Crashed e => Crashed e
    end
  else if Str.startswith "--quality=" arg then
    match after_equals arg with
    | Finished value =>
        Finished {| taxon_id := taxon_id st; quality_grade := value;
                    per_page := per_page st; additional_params := additional_params st |}
    | Crashed e => Crashed e
    end
  else if Str.startswith "--count=" arg then
    match after_equals arg with
    | Finished value =>
        match py_int value with
        | Some n =>
            Finished {| taxon_id := taxon_id st; quality_grade := quality_grade st;
                        per_page := n; additional_params := additional_params st |}
        | None => Crashed UncaughtValueError
        end
    | Crashed e => Crashed e
    end
  else if Str.startswith "--" arg then
    match split1 (Str.drop 2 arg) with
    | (key, Some value) =>
        Finished {| taxon_id := taxon_id st; quality_grade := quality_grade st;
                    per_page := per_page st;
                    additional_params := dict_set key (PStr value) (additional_params st) |}
    | (_, None) => Crashed UncaughtValueError
    end
  else Finished st.

Fixpoint parse_from (st : args) (argv : list string) : run args :=
  match argv with
  | [] => Finished st
  | arg :: argv' =>
      match step st arg with
      | Finished st' => parse_from st' argv'
      | Crashed e => Crashed e
      end
  end.

Definition parse (argv : list string) : run args := parse_from initial argv.

(** The names of the parameters of [scrape_inat_observations]: the call
    [scrape_inat_observations(taxon_id=..., quality_grade=..., per_page=...,
    **additional_params)] raises [TypeError] when [additional_params] holds
    one of them. *)
Definition keyword_names : list string := [ "taxon_id"; "quality_grade"; "per_page" ].

Definition repeats_keyword (additional : list (string * pyval)) : bool :=
  existsb (λ k, bool_decide (is_Some (dict_lookup k additional))) keyword_names.

(** [main] from the command line on; [argv] is [sys.argv[1:]]. *)
Definition main (argv : list string) (api : list (string * pyval) → result pyval)
    (now : string) (fs : gmap string pyval) : run (gmap string pyval) :=
  match parse argv with
  | Finished st =>
      if repeats_keyword (additional_params st)
      then Crashed UncaughtTypeError
      else Finished (INat.main api now (taxon_id st) (quality_grade st) (per_page st)
                       (additional_params st) fs)
  | Crashed e => Crashed e
  end.

(** The values given for a flag, in the order of the arguments. *)
Definition flag_values (flag : string) (argv : list string) : list string :=
  omap (λ arg, if Str.startswith flag arg
               then Some (Str.drop (String.length flag) arg) else None) argv.

End INatCli.

(** * Properties *)

(** ** [str.replace] *)

Section replace.
Variables old new : string.
Hypothesis old_nonempty : old ≠ EmptyString.

Lemma replace_nonempty s : Str.replace old new s = Str.replace_go old new 0 s.
Proof using old_nonempty. unfold Str.replace. by destruct old. Qed.

Lemma replace_go_cons c s :
  Str.replace_go old new 0 (String c s) =
  if Str.startswith old (String c s)
  then new +:+ Str.replace_go old new (String.length old - 1) s
  else String c (Str.replace_go old new 0 s).
Proof. reflexivity. Qed.

Lemma replace_go_skip k s :
  Str.replace_go old new k s = Str.replace_go old new 0 (Str.drop k s).
Proof.
  revert k. induction s as [|c s IH]; intros [|k]; try reflexivity.
  simpl Str.drop. rewrite <- IH. reflexivity.
Qed.

Lemma startswith_empty_text : Str.startswith old EmptyString = false.
Proof using old_nonempty. by destruct old. Qed.

Lemma find_cons c s :
  Str.find old (String c s) =
  if Str.startswith old (String c s) then Some 0%nat else S <$> Str.find old s.
Proof. reflexivity. Qed.

(** A text without an occurrence is returned as it is. *)
Lemma replace_absent s :
  Str.find old s = None → Str.replace old new s = s.
Proof using old_nonempty.
  rewrite replace_nonempty.
  induction s as [|c s IH]; [reflexivity|].
  rewrite find_cons, replace_go_cons.
  destruct (Str.startswith old (String c s)); [discriminate|].
  destruct (Str.find old s); [discriminate|].
  intros _. by rewrite IH.
Qed.

(** The leftmost occurrence is replaced and the scan resumes after it. *)
Lemma replace_first s i :
  Str.find old s = Some i →
  Str.replace old new s =
  Str.take i s +:+ new +:+ Str.replace old new (Str.drop (i + String.length old) s).
Proof using old_nonempty.
  rewrite !replace_nonempty.
  revert i. induction s as [|c s IH]; intros i.
  - simpl. rewrite startswith_empty_text. discriminate.
  - rewrite find_cons, replace_go_cons.
    destruct (Str.startswith old (String c s)).
    + intros [= <-]. rewrite replace_go_skip.
      destruct old as [|a p]; [done|]. simpl.
      by rewrite Nat.sub_0_r.
    + destruct (Str.find old s) as [j|]; [|discriminate].
      intros [= <-]. simpl. by rewrite (IH j).
Qed.

Lemma startswith_split s :
  Str.startswith old s = true → s = old +:+ Str.drop (String.length old) s.
Proof.
  clear old_nonempty. revert s.
  induction old as [|a p IH]; intros s; [done|].
  destruct s as [|c s]; [done|]. simpl.
  intros [Hc Hp]%andb_true_iff. apply Ascii.eqb_eq in Hc as ->.
  change (String c s = String c (p +:+ Str.drop (String.length p) s)).
  f_equal. by apply IH.
Qed.

(** [find] returns the position of an occurrence. *)
Lemma find_occurrence s i :
  Str.find old s = Some i →
  s = Str.take i s +:+ old +:+ Str.drop (i + String.length old) s.
Proof.
  revert i. induction s as [|c s IH]; intros i.
  - simpl. destruct (Str.startswith old EmptyString) eqn:Hs; [|discriminate].
    intros [= <-]. by apply startswith_split.
  - rewrite find_cons.
    destruct (Str.startswith old (String c s)) eqn:Hs.
    + intros [= <-]. by apply startswith_split.
    + destruct (Str.find old s) as [j|]; [|discriminate].
      intros [= <-].
      change (String c s =
              String c (Str.take j s +:+ old +:+ Str.drop (j + String.length old) s)).
      f_equal. by apply IH.
Qed.

(** With a single occurrence, exactly that occurrence is replaced. *)
Lemma replace_single s i :
  Str.find old s = Some i →
  Str.find old (Str.drop (i + String.length old) s) = None →
  Str.replace old new s =
  Str.take i s +:+ new +:+ Str.drop (i + String.length old) s.
Proof using old_nonempty.
  intros Hi Hrest. rewrite (replace_first _ _ Hi).
  by rewrite (replace_absent _ Hrest).
Qed.
End replace.

(** ** Regular expressions: what group 1 captures *)

Lemma str_take_app_length (u v : string) : Str.take (String.length u) (u +:+ v) = u.
Proof. induction u as [|c u IH]; simpl; [by destruct v | by rewrite IH]. Qed.

Lemma rep_cons p lo hi k pos prev c rest cs :
  Re.rep p lo hi k pos prev (String c rest) cs =
  let stop := match lo with O => k pos prev (String c rest) cs | S _ => None end in
  if bool_decide (hi = Some O) then stop
  else if p c
       then match Re.rep p (pred lo) (pred <$> hi) k (S pos) (Some c) rest cs with
            | Some m => Some m
            | None => stop
            end
       else stop.
Proof. by destruct hi as [[|h]|]. Qed.

Lemma rep_inv p lo hi k pos prev rest cs m :
  Re.rep p lo hi k pos prev rest cs = Some m →
  ∃ w rest' prev',
    rest = w +:+ rest' ∧ Str.forallb p w = true ∧
    k (pos + String.length w)%nat prev' rest' cs = Some m.
Proof.
  revert lo hi pos prev.
  assert (Hstop : ∀ lo pos prev rest,
    match lo with O => k pos prev rest cs | S _ => None end = Some m →
    ∃ w rest' prev',
      rest = w +:+ rest' ∧ Str.forallb p w = true ∧
      k (pos + String.length w)%nat prev' rest' cs = Some m).
  { intros [|lo] pos prev rest0 H; [|done].
    exists EmptyString, rest0, prev. by rewrite Nat.add_0_r. }
  induction rest as [|c rest IH]; intros lo hi pos prev H.
  - apply (Hstop lo pos prev). by destruct hi as [[|h]|].
  - rewrite rep_cons in H. cbv zeta in H.
    case_bool_decide; [by apply (Hstop lo pos prev)|].
    destruct (p c) eqn:Hpc; [|by apply (Hstop lo pos prev)].
    destruct (Re.rep p (pred lo) (pred <$> hi) k (S pos) (Some c) rest cs)
      as [m'|] eqn:Hrec; [|by apply (Hstop lo pos prev)].
    injection H as ->.
    destruct (IH _ _ _ _ Hrec) as (w & rest' & prev' & -> & Hw & Hk).
    exists (String c w), rest', prev'. simpl. rewrite Hpc, Hw.
    by rewrite <- Nat.add_succ_comm.
Qed.

Lemma run_inv r :
  Re.digit_groups r →
  ∀ k pos prev rest cs m,
    Re.run r k pos prev rest cs = Some m →
    ∃ pos' prev' rest' cs',
      k pos' prev' rest' cs' = Some m ∧ (caps_ok cs → caps_ok cs').
Proof.
  induction 1 as [lo hi|n r Hn Hr IH| |p|r1 r2 H1 IH1 H2 IH2|r1 r2 H1 IH1 H2 IH2|p lo hi|];
    intros k pos prev rest cs m Hrun; simpl in Hrun.
  - apply rep_inv in Hrun as (w & rest' & prev' & -> & Hw & Hk).
    eexists _, _, _, _. split; [exact Hk|].
    intros Hcs. apply Forall_cons. split; [|done].
    intros _. simpl. replace (pos + String.length w - pos)%nat
      with (String.length w) by lia.
    by rewrite str_take_app_length.
  - apply IH in Hrun as (pos' & prev' & rest' & cs' & Hk & Hcs).
    eexists _, _, _, _. split; [exact Hk|].
    intros Hok. apply Forall_cons. split; [done | by apply Hcs].
  - by eexists _, _, _, _.
  - destruct rest as [|c rest]; [done|]. destruct (p c); [|done].
    by eexists _, _, _, _.
  - apply IH1 in Hrun as (pos1 & prev1 & rest1 & cs1 & Hk1 & Hcs1).
    apply IH2 in Hk1 as (pos2 & prev2 & rest2 & cs2 & Hk2 & Hcs2).
    eexists _, _, _, _. split; [exact Hk2 | auto].
  - destruct (Re.run r1 k pos prev rest cs) as [m'|] eqn:Hleft.
    + injection Hrun as ->. by apply IH1 in Hleft.
    + by apply IH2 in Hrun.
  - apply rep_inv in Hrun as (w & rest' & prev' & -> & Hw & Hk).
    by eexists _, _, _, _.
  - destruct (xorb _ _); [|done]. by eexists _, _, _, _.
Qed.

Lemma match_at_ok r prev s n cs :
  Re.digit_groups r → Re.match_at r prev s = Some (n, cs) → caps_ok cs.
Proof.
  intros Hr Hm. apply (run_inv _ Hr) in Hm as (pos' & prev' & rest' & cs' & [= _ <-] & Hcs).
  apply Hcs. constructor.
Qed.

Lemma search_ok r s cs :
  Re.digit_groups r → Re.search r s = Some cs → caps_ok cs.
Proof.
  intros Hr. unfold Re.search. generalize (@None ascii) as prev.
  induction s as [|c s IH]; intros prev; simpl;
    destruct (Re.match_at r prev _) as [[n cs']|] eqn:Hm.
  - intros [= <-]. by eapply match_at_ok.
  - done.
  - intros [= <-]. by eapply match_at_ok.
  - apply IH.
Qed.

Lemma findall_go_ok r skip prev s :
  Re.digit_groups r → Forall caps_ok (Re.findall_go r skip prev s).
Proof.
  intros Hr. revert skip prev.
  induction s as [|c s IH]; intros [|skip] prev; simpl; try done.
  - destruct (Re.match_at r prev _) as [[n cs]|] eqn:Hm; [|done].
    repeat constructor. by eapply match_at_ok.
  - destruct (Re.match_at r prev _) as [[n cs]|] eqn:Hm; [|done].
    constructor; [by eapply match_at_ok | done].
Qed.

Lemma group_ok cs : caps_ok cs → digits_only (Re.group 1 cs).
Proof.
  unfold Re.group. induction 1 as [|[n v] cs Hv _ IH]; simpl; [done|].
  destruct n as [|[|n]]; simpl; auto.
Qed.

Lemma findall_digits r s :
  Re.digit_groups r → Forall digits_only (Re.findall r s).
Proof.
  intros Hr. unfold Re.findall. apply Forall_fmap.
  eapply Forall_impl; [by apply findall_go_ok|]. apply group_ok.
Qed.

Lemma dg_str s : Re.digit_groups (Re.str s).
Proof. induction s; simpl; repeat constructor; done. Qed.

Lemma dg_istr s : Re.digit_groups (Re.istr s).
Proof. induction s; simpl; repeat constructor; done. Qed.

Lemma dg_seqs rs : Forall Re.digit_groups rs → Re.digit_groups (Re.seq rs).
Proof. induction 1; simpl; by constructor. Qed.

Lemma dg_digits lo hi : Re.digit_groups (Re.digits lo hi).
Proof. constructor. Qed.

Lemma dg_digits1 : Re.digit_groups Re.digits1.
Proof. constructor. Qed.

Lemma dg_lit c : Re.digit_groups (Re.lit c).
Proof. constructor. Qed.

Lemma dg_ilit c : Re.digit_groups (Re.ilit c).
Proof. constructor. Qed.

Lemma dg_star p : Re.digit_groups (Re.star p).
Proof. constructor. Qed.

Lemma dg_opt p : Re.digit_groups (Re.opt p).
Proof. constructor. Qed.

Create HintDb dg.
#[local] Hint Resolve dg_str dg_istr dg_digits dg_digits1 dg_lit dg_ilit dg_star dg_opt : dg.
#[local] Hint Constructors Re.digit_groups Forall : dg.
#[local] Hint Extern 1 (Re.digit_groups (Re.seq _)) => apply dg_seqs : dg.
#[local] Hint Extern 1 (_ ≠ _) => discriminate : dg.

(** ** Deduplication by first occurrence *)

Lemma filter_all {A} (P : A → Prop) `{!∀ a, Decision (P a)} (l : list A) :
  Forall P l → filter P l = l.
Proof.
  induction 1 as [|a l Ha _ IH]; [done|].
  by rewrite filter_cons_True, IH.
Qed.

Lemma take_snoc_full {A} (u : list A) a l n :
  n = (length u + 1)%nat → take n (u ++ a :: l) = u ++ [a].
Proof.
  intros ->. rewrite (cons_middle a u l), (assoc_L (++) u [a] l).
  apply take_app_length'. rewrite length_app. simpl. lia.
Qed.

Section first_occurrences.
Implicit Types l u : list string.
Import EBird.

Lemma first_occurrences_filter (P : string → Prop) `{!∀ a, Decision (P a)} l :
  first_occurrences (filter P l) = filter P (first_occurrences l).
Proof.
  induction l as [|a l IH]; [done|]. simpl.
  rewrite !filter_cons. destruct (decide (P a)) as [Ha|Ha]; simpl.
  - rewrite IH, !list_filter_filter. f_equal.
    apply list_filter_iff. intros b. simpl. naive_solver.
  - rewrite IH, list_filter_filter.
    apply list_filter_iff. intros b. simpl. split; [|naive_solver].
    intros Hb. split; [done|]. by intros ->.
Qed.

Lemma elem_of_first_occurrences a l : a ∈ first_occurrences l ↔ a ∈ l.
Proof.
  induction l as [|b l IH]; [done|]. simpl.
  rewrite !elem_of_cons, list_elem_of_filter, IH.
  destruct (decide (a = b)); naive_solver.
Qed.

Lemma NoDup_first_occurrences l : NoDup (first_occurrences l).
Proof.
  induction l as [|a l IH]; simpl; constructor.
  - rewrite list_elem_of_filter. naive_solver.
  - by apply NoDup_filter.
Qed.

(** The result keeps the order of the list. *)
Lemma first_occurrences_sublist l : first_occurrences l `sublist_of` l.
Proof.
  induction l as [|a l IH]; simpl; [done|].
  apply sublist_skip. etrans; [apply sublist_filter | done].
Qed.

(** The result for a prefix is a prefix of the result: an element stands
    where it first occurs. *)
Lemma first_occurrences_app l1 l2 :
  first_occurrences (l1 ++ l2) =
  first_occurrences l1 ++ filter (λ a, a ∉ l1) (first_occurrences l2).
Proof.
  induction l1 as [|a l1 IH]; simpl.
  - symmetry. apply filter_all, Forall_forall. intros b _. apply not_elem_of_nil.
  - rewrite IH, filter_app, list_filter_filter. do 2 f_equal.
    apply list_filter_iff. intros b. rewrite not_elem_of_cons. naive_solver.
Qed.

Lemma first_occurrences_NoDup l : NoDup l → first_occurrences l = l.
Proof.
  induction 1 as [|a l Ha _ IH]; simpl; [done|]. rewrite IH. f_equal.
  apply filter_all, Forall_forall. intros b Hb ->. done.
Qed.

Lemma length_first_occurrences l :
  length (first_occurrences l) = size (list_to_set l : gset string).
Proof.
  rewrite <- (size_list_to_set (C:=gset string) (first_occurrences l))
    by apply NoDup_first_occurrences.
  f_equal. apply set_eq. intros a.
  by rewrite !elem_of_list_to_set, elem_of_first_occurrences.
Qed.

(** The loop computes the first occurrences of the long enough strings,
    up to its bound. *)
Lemma unique_loop_cons cap a l u (seen : gset string) :
  unique_loop cap (a :: l) u seen =
  if bool_decide (a ∉ seen) && long_enough a
  then if (cap <=? length (u ++ [a]))%nat
       then u ++ [a]
       else unique_loop cap l (u ++ [a]) ({[a]} ∪ seen)
  else unique_loop cap l u seen.
Proof. reflexivity. Qed.

Lemma unique_loop_acc cap l u (seen : gset string) :
  (0 < cap)%nat → (length u < cap)%nat → seen = list_to_set u →
  unique_loop cap l u seen =
  take cap (u ++ first_occurrences (filter (λ a, long_enough a ∧ a ∉ u) l)).
Proof.
  intros Hcap. revert u seen.
  induction l as [|a l IH]; intros u seen Hu ->.
  - simpl. rewrite app_nil_r, take_ge; [done | lia].
  - rewrite unique_loop_cons, filter_cons.
    destruct (decide (long_enough a ∧ a ∉ u)) as [[Hlong Ha]|Hno].
    + rewrite bool_decide_eq_true_2 by by rewrite elem_of_list_to_set.
      apply Is_true_eq_true in Hlong as ->. cbn [andb].
      rewrite length_app. cbn [length first_occurrences].
      destruct (Nat.leb_spec cap (length u + 1)) as [Hfull|Hroom].
      * symmetry. apply take_snoc_full. lia.
      * rewrite (IH (u ++ [a]) ({[a]} ∪ list_to_set u)).
        -- rewrite <- (assoc_L (++) u [a]). simpl. do 3 f_equal.
           rewrite <- first_occurrences_filter, list_filter_filter.
           f_equal. apply list_filter_iff. intros b.
           rewrite not_elem_of_app, not_elem_of_cons.
           pose proof (not_elem_of_nil b). naive_solver.
        -- rewrite length_app. simpl. lia.
        -- rewrite list_to_set_app_L. simpl. set_solver.
    + replace (bool_decide (a ∉ list_to_set u) && long_enough a) with false.
      * by apply IH.
      * symmetry. apply andb_false_iff.
        destruct (long_enough a); [left | by right].
        apply bool_decide_eq_false_2. rewrite elem_of_list_to_set.
        intros Ha. apply Hno. done.
Qed.

Lemma unique_loop_spec cap l :
  (0 < cap)%nat →
  unique_loop cap l [] ∅ = take cap (first_occurrences (filter long_enough l)).
Proof.
  intros Hcap. rewrite (unique_loop_acc cap l [] ∅) by (done || simpl; lia).
  simpl. do 2 f_equal. apply list_filter_iff. intros a.
  split; [naive_solver|]. intros ?. split; [done | apply not_elem_of_nil].
Qed.
End first_occurrences.

(** ** The eBird scrapers *)

(** A loop that only extends the list visits the items in order. *)
Lemma fold_left_extend {A} (body : list string → A → list string)
    (f : A → list string) (l : list A) (acc : list string) :
  (∀ acc x, body acc x = acc ++ f x) →
  fold_left body l acc = acc ++ (l ≫= f).
Proof.
  intros Hbody. revert acc.
  induction l as [|x l IH]; intros acc; simpl.
  - by rewrite app_nil_r.
  - by rewrite Hbody, IH, (assoc_L (++)).
Qed.

Lemma digits_only_qualifying a :
  digits_only a → EBird.qualifying a = EBird.long_enough a.
Proof.
  unfold EBird.qualifying, EBird.long_enough, Str.isdigit, digits_only.
  intros Ha. destruct a; [done|]. by rewrite Ha.
Qed.

Lemma filter_qualifying l :
  Forall digits_only l → filter EBird.qualifying l = filter EBird.long_enough l.
Proof.
  induction 1 as [|a l Ha _ IH]; [done|].
  rewrite !filter_cons, IH, (digits_only_qualifying a Ha). done.
Qed.

Section static_facts.
Import EBirdStatic.

Lemma static_from_links_eq pg acc : from_links pg acc = acc ++ link_matches pg.
Proof.
  unfold from_links, link_matches. apply fold_left_extend.
  intros acc' href. destruct (Re.search re_asset href); [done|].
  by rewrite app_nil_r.
Qed.

Lemma static_from_images_eq pg acc : from_images pg acc = acc ++ image_matches pg.
Proof. unfold from_images, image_matches. by apply fold_left_extend. Qed.

Lemma static_from_data_eq pg acc : from_data pg acc = acc ++ data_matches pg.
Proof.
  unfold from_data, data_matches. apply fold_left_extend.
  intros acc' asset_id. destruct (_ && _); [done|]. by rewrite app_nil_r.
Qed.

Lemma static_collect_eq pg :
  collect pg = link_matches pg ++ image_matches pg ++ data_matches pg ++ text_matches pg.
Proof.
  unfold collect, from_text.
  rewrite static_from_data_eq, static_from_images_eq, static_from_links_eq. simpl.
  by rewrite <- !(assoc_L (++)).
Qed.

Lemma static_collect_digits pg : Forall digits_only (collect pg).
Proof.
  rewrite static_collect_eq. repeat apply Forall_app_2.
  - apply Forall_bind, Forall_forall. intros href _. simpl.
    destruct (Re.search re_asset href) as [m|] eqn:Hm; [|done].
    repeat constructor. eapply group_ok, search_ok; [|done].
    unfold re_asset. auto with dg.
  - apply Forall_bind, Forall_forall. intros src _.
    apply findall_digits. unfold re_number_word. auto 10 with dg.
  - apply Forall_bind, Forall_forall. intros asset_id _. simpl.
    destruct (_ && Str.isdigit asset_id) eqn:Hd; [|done].
    apply andb_true_iff in Hd as [_ Hd].
    repeat constructor. by destruct asset_id.
  - apply findall_digits. unfold re_ml_text. auto with dg.
Qed.

Lemma static_scrape_eq pg :
  scrape_ebird_photos (Ok pg) =
  match first_occurrences_long pg with
  | [] => EBird.get_fallback_assets
  | found => take 12 found
  end.
Proof.
  unfold scrape_ebird_photos, first_occurrences_long.
  rewrite unique_loop_spec by lia.
  destruct (EBird.first_occurrences _) as [|a found]; [done|].
  simpl. f_equal. by rewrite take_take.
Qed.
End static_facts.

Section browser_facts.
Import EBirdBrowser.

Lemma browser_from_images_eq pg acc : from_images pg acc = acc ++ image_matches pg.
Proof.
  unfold from_images, image_matches. apply fold_left_extend.
  intros acc' [src|]; [|by rewrite app_nil_r].
  destruct (py_truthy _); [done|]. by rewrite app_nil_r.
Qed.

Lemma browser_from_links_eq pg acc : from_links pg acc = acc ++ link_matches pg.
Proof.
  unfold from_links, link_matches. apply fold_left_extend.
  intros acc' [href|]; [|by rewrite app_nil_r].
  destruct (_ && _); [done|]. by rewrite app_nil_r.
Qed.

Lemma browser_collect_eq pg :
  collect pg =
  image_matches pg ++ link_matches pg ++
  pattern_matches pattern1 pg ++ pattern_matches pattern2 pg ++
  pattern_matches pattern3 pg ++ pattern_matches pattern4 pg ++
  pattern_matches pattern5 pg ++ pattern_matches pattern6 pg.
Proof.
  unfold collect, from_pattern, pattern_matches.
  rewrite browser_from_links_eq, browser_from_images_eq. simpl.
  by rewrite <- !(assoc_L (++)).
Qed.

Lemma browser_collect_digits pg : Forall digits_only (collect pg).
Proof.
  rewrite browser_collect_eq. repeat apply Forall_app_2.
  - apply Forall_bind, Forall_forall. intros [src|] _; simpl; [|done].
    case_match; [|done]. apply findall_digits.
    unfold re_number. auto with dg.
  - apply Forall_bind, Forall_forall. intros [href|] _; simpl; [|done].
    case_match; [|done]. apply findall_digits.
    unfold re_asset. auto with dg.
  - apply findall_digits. unfold pattern1. auto with dg.
  - apply findall_digits. unfold pattern2. auto with dg.
  - apply findall_digits. unfold pattern3, json_field, quote_opt, space_star.
    auto 20 with dg.
  - apply findall_digits. unfold pattern4, json_field, quote_opt, space_star.
    auto 20 with dg.
  - apply findall_digits. unfold pattern5. auto 20 with dg.
  - apply findall_digits. unfold pattern6, any_quote_opt, space_star.
    auto 20 with dg.
Qed.

Lemma browser_scrape_eq pg :
  scrape_ebird_photos (Ok pg) =
  match first_occurrences_long pg with
  | [] => EBird.get_fallback_assets
  | found => take 12 found
  end.
Proof.
  unfold scrape_ebird_photos, first_occurrences_long.
  rewrite unique_loop_spec by lia.
  destruct (EBird.first_occurrences _) as [|a found]; [done|].
  simpl. f_equal. by rewrite take_take.
Qed.
End browser_facts.

Example catalog_static_collect :
  EBirdStatic.collect Samples.catalog_static =
  [ "629849023"; "629849023"; "629848993"; "629848963"; "1234"; "629849023";
    "629848933" ].
Proof. vm_compute. reflexivity. Qed.

Example catalog_static_scrape :
  EBirdStatic.scrape_ebird_photos (Ok Samples.catalog_static) =
  [ "629849023"; "629848993"; "629848963"; "629848933" ]
  ∧ EBirdStatic.distinct_on_page Samples.catalog_static = 4%nat.
Proof. vm_compute. done. Qed.

Example linked_image_scrape :
  EBirdBrowser.scrape_ebird_photos (Ok Samples.linked_image) = [ "11111111"; "22222222" ]
  ∧ EBirdBrowser.distinct_on_page Samples.linked_image = 2%nat.
Proof. vm_compute. done. Qed.

(** The law that both pipelines obey, for a list of matches that are strings
    of digits. *)
Lemma pipeline_law (matches out : list string) :
  Forall digits_only matches →
  out = match EBird.first_occurrences (filter EBird.long_enough matches) with
        | [] => EBird.get_fallback_assets
        | found => take 12 found
        end →
  out = (if decide (EBird.distinct_qualifying matches = 0%nat)
         then EBird.get_fallback_assets
         else take 12 (EBird.first_occurrences (filter EBird.qualifying matches)))
  ∧ length out = (if decide (EBird.distinct_qualifying matches = 0%nat)
                  then 8%nat
                  else Nat.min (EBird.distinct_qualifying matches) 12)
  ∧ NoDup out
  ∧ Forall (λ a, (8 ≤ String.length a)%nat ∧ EBird.qualifying a = true) out.
Proof.
  intros Hdigits ->. unfold EBird.distinct_qualifying.
  rewrite <- length_first_occurrences, (filter_qualifying _ Hdigits).
  pose proof (NoDup_first_occurrences (filter EBird.long_enough matches)) as Hnodup.
  assert (Forall (λ a, (8 ≤ String.length a)%nat ∧ EBird.qualifying a = true)
            (EBird.first_occurrences (filter EBird.long_enough matches))) as Hlong.
  { apply Forall_forall. intros a.
    rewrite elem_of_first_occurrences, list_elem_of_filter.
    intros [Ha Hin]. rewrite Forall_forall in Hdigits.
    rewrite (digits_only_qualifying a (Hdigits a Hin)).
    apply Is_true_eq_true in Ha. split; [|done].
    unfold EBird.long_enough in Ha. by apply Nat.leb_le in Ha. }
  destruct (EBird.first_occurrences _) as [|a found]; simpl length.
  - rewrite !decide_True by done. repeat split.
    + vm_compute. repeat constructor; set_solver.
    + vm_compute. repeat constructor; lia.
  - rewrite !decide_False by done. repeat split.
    + rewrite length_take. simpl length. lia.
    + exact (sublist_NoDup _ _ Hnodup (sublist_take _ 12)).
    + by apply Forall_take.
Qed.

(** The surfaces of the page hold what the scripts gather: the static script
    reads every surface in full, the browser script the first 20 images, the
    first 50 anchors and the content. *)
Lemma static_collect_on_surfaces pg :
  EBirdStatic.collect pg = EBirdStatic.on_surfaces pg.
Proof. apply static_collect_eq. Qed.

Lemma browser_collect_on_part_read pg :
  EBirdBrowser.collect pg = EBirdBrowser.on_part_read pg.
Proof. apply browser_collect_eq. Qed.

Lemma browser_short_page_read_in_full pg :
  (length (EBirdBrowser.img_srcs pg) ≤ 20)%nat →
  (length (EBirdBrowser.link_hrefs pg) ≤ 50)%nat →
  EBirdBrowser.on_part_read pg = EBirdBrowser.on_whole_page pg.
Proof.
  intros Himg Hlink. unfold EBirdBrowser.on_part_read, EBirdBrowser.on_whole_page.
  by rewrite !take_ge by done.
Qed.

(** C1 (amended).  For a fetched page let N be the number of distinct
    qualifying identifiers (numeric, of length 8 or more) that the patterns
    of the heuristics match on the surfaces that the script reads: in the
    static variant every anchor, every image, every data-asset-id attribute
    and the text of the page; in the browser variant the first 20 images,
    the first 50 anchors and the page content, so that an identifier that
    occurs in a later image or anchor only is not counted (on a page of at
    most 20 images and 50 anchors this is the whole page).  When N >= 1 the
    pipeline returns the first min(N, 12) of these identifiers in the order
    of their first occurrence, the heuristics taken in the order in which the
    script applies them, without duplicates and each numeric and of length 8
    or more; when N = 0 it returns the 8 fallback identifiers instead of an
    empty list. *)
Theorem ebird_returns_first_min_N_12
    (pgS : EBirdStatic.page) (pgB : EBirdBrowser.page) :
  let outS := EBirdStatic.scrape_ebird_photos (Ok pgS) in
  let nS := EBirdStatic.distinct_on_page pgS in
  let outB := EBirdBrowser.scrape_ebird_photos (Ok pgB) in
  let nB := EBirdBrowser.distinct_in_part_read pgB in
  (outS = (if decide (nS = 0%nat) then EBird.get_fallback_assets
           else take 12 (EBird.first_occurrences
                           (filter EBird.qualifying (EBirdStatic.on_surfaces pgS))))
   ∧ length outS = (if decide (nS = 0%nat) then 8%nat else Nat.min nS 12)
   ∧ NoDup outS
   ∧ Forall (λ a, (8 ≤ String.length a)%nat ∧ EBird.qualifying a = true) outS)
  ∧
  (outB = (if decide (nB = 0%nat) then EBird.get_fallback_assets
           else take 12 (EBird.first_occurrences
                           (filter EBird.qualifying (EBirdBrowser.on_part_read pgB))))
   ∧ length outB = (if decide (nB = 0%nat) then 8%nat else Nat.min nB 12)
   ∧ NoDup outB
   ∧ Forall (λ a, (8 ≤ String.length a)%nat ∧ EBird.qualifying a = true) outB)
  ∧
  ((length (EBirdBrowser.img_srcs pgB) ≤ 20)%nat →
   (length (EBirdBrowser.link_hrefs pgB) ≤ 50)%nat →
   EBirdBrowser.on_part_read pgB = EBirdBrowser.on_whole_page pgB
   ∧ nB = EBirdBrowser.distinct_on_page pgB).
Proof.
  split; [|split].
  - apply pipeline_law.
    + rewrite <- static_collect_on_surfaces. apply static_collect_digits.
    + rewrite <- static_collect_on_surfaces. apply static_scrape_eq.
  - apply pipeline_law.
    + rewrite <- browser_collect_on_part_read. apply browser_collect_digits.
    + rewrite <- browser_collect_on_part_read. apply browser_scrape_eq.
  - intros Himg Hlink.
    unfold EBirdBrowser.distinct_in_part_read, EBirdBrowser.distinct_on_page.
    by rewrite (browser_short_page_read_in_full _ Himg Hlink).
Qed.

Lemma ebird_returns_first_min_N_12_witness :
  EBirdBrowser.on_part_read Samples.linked_image
  = EBirdBrowser.on_whole_page Samples.linked_image
  ∧ EBirdBrowser.distinct_in_part_read Samples.linked_image
    = EBirdBrowser.distinct_on_page Samples.linked_image.
Proof.
  destruct (ebird_returns_first_min_N_12 Samples.catalog_static Samples.linked_image)
    as (_ & _ & Hshort).
  apply Hshort; simpl; lia.
Defined.

(** C1 as stated fails in two ways.  For N = 0: on a page without any match
    both pipelines return 8 identifiers, not min(0, 12) = 0.  For an
    identifier beyond what the browser script reads: a rendered page whose
    21st image is its only photo holds N = 1 identifier, and the script, which
    reads the first 20 images, returns the 8 fallback identifiers, not
    min(1, 12) = 1 identifier of the page. *)
Lemma min_N_12_fails_on_empty_or_long_page :
  (EBirdStatic.distinct_on_page Samples.empty_static = 0%nat
   ∧ length (EBirdStatic.scrape_ebird_photos (Ok Samples.empty_static)) ≠ Nat.min 0 12
   ∧ EBirdBrowser.distinct_on_page Samples.empty_browser = 0%nat
   ∧ length (EBirdBrowser.scrape_ebird_photos (Ok Samples.empty_browser)) ≠ Nat.min 0 12)
  ∧ (EBirdBrowser.on_whole_page Samples.late_image = [ "55555555" ]
     ∧ EBirdBrowser.distinct_on_page Samples.late_image = 1%nat
     ∧ EBirdBrowser.scrape_ebird_photos (Ok Samples.late_image) = EBird.get_fallback_assets
     ∧ length (EBirdBrowser.scrape_ebird_photos (Ok Samples.late_image)) ≠ Nat.min 1 12).
Proof. vm_compute. repeat split; discriminate. Qed.

(** C2.  In both eBird variants, when the deduplication loop leaves no
    identifier, the pipeline returns the fixed list of 8 fallback
    identifiers, which is not empty. *)
Theorem zero_unique_yields_fallback
    (pgS : EBirdStatic.page) (pgB : EBirdBrowser.page) :
  (EBird.unique_loop 15 (EBirdStatic.collect pgS) [] ∅ = [] →
   EBirdStatic.scrape_ebird_photos (Ok pgS) = EBird.get_fallback_assets)
  ∧ (EBird.unique_loop 50 (EBirdBrowser.collect pgB) [] ∅ = [] →
     EBirdBrowser.scrape_ebird_photos (Ok pgB) = EBird.get_fallback_assets)
  ∧ length EBird.get_fallback_assets = 8%nat
  ∧ EBird.get_fallback_assets ≠ [].
Proof.
  repeat split; [| |done].
  - intros Hnone. unfold EBirdStatic.scrape_ebird_photos. by rewrite Hnone.
  - intros Hnone. unfold EBirdBrowser.scrape_ebird_photos. by rewrite Hnone.
Qed.

Lemma zero_unique_yields_fallback_witness :
  EBirdStatic.scrape_ebird_photos (Ok Samples.empty_static) = EBird.get_fallback_assets
  ∧ EBirdBrowser.scrape_ebird_photos (Ok Samples.empty_browser) = EBird.get_fallback_assets.
Proof.
  destruct (zero_unique_yields_fallback Samples.empty_static Samples.empty_browser)
    as (HS & HB & _).
  split; [apply HS | apply HB]; reflexivity.
Defined.

(** C5 (amended).  The static script concatenates the matches in the order
    anchor-tag href, image-tag src, data attributes, raw-text ML numbers (it
    has no embedded-JSON heuristic).  The browser script concatenates them in
    the order image src, anchor href, then the patterns over the page content:
    asset URLs, ML numbers, the JSON fields catalogId and assetId, image paths,
    data attributes.  Within a heuristic the matches are in document order,
    and the concatenation precedes the deduplication. *)
Theorem heuristic_order (pgS : EBirdStatic.page) (pgB : EBirdBrowser.page) :
  EBirdStatic.collect pgS =
    EBird.spec_heuristic_order
      (EBirdStatic.link_matches pgS) (EBirdStatic.image_matches pgS)
      (EBirdStatic.data_matches pgS) [] (EBirdStatic.text_matches pgS)
  ∧ EBirdBrowser.collect pgB =
      EBirdBrowser.image_matches pgB ++ EBirdBrowser.link_matches pgB ++
      EBirdBrowser.pattern_matches EBirdBrowser.pattern1 pgB ++
      EBirdBrowser.pattern_matches EBirdBrowser.pattern2 pgB ++
      EBirdBrowser.pattern_matches EBirdBrowser.pattern3 pgB ++
      EBirdBrowser.pattern_matches EBirdBrowser.pattern4 pgB ++
      EBirdBrowser.pattern_matches EBirdBrowser.pattern5 pgB ++
      EBirdBrowser.pattern_matches EBirdBrowser.pattern6 pgB
  ∧ EBirdStatic.scrape_ebird_photos (Ok pgS) =
      match EBird.first_occurrences (filter EBird.long_enough (EBirdStatic.collect pgS)) with
      | [] => EBird.get_fallback_assets
      | found => take 12 found
      end
  ∧ EBirdBrowser.scrape_ebird_photos (Ok pgB) =
      match EBird.first_occurrences (filter EBird.long_enough (EBirdBrowser.collect pgB)) with
      | [] => EBird.get_fallback_assets
      | found => take 12 found
      end.
Proof.
  split; [apply static_collect_eq|].
  split; [apply browser_collect_eq|].
  split; [apply static_scrape_eq | apply browser_scrape_eq].
Qed.

(** C5 as stated fails for the browser script: on a page whose anchor to
    asset 22222222 wraps an image of asset 11111111, the image match comes
    first, where the order of the claim puts the anchor match first. *)
Lemma browser_order_differs_from_spec :
  EBirdBrowser.collect Samples.linked_image = [ "11111111"; "22222222"; "22222222" ]
  ∧ EBirdBrowser.spec_collect Samples.linked_image = [ "22222222"; "22222222"; "11111111" ]
  ∧ EBirdBrowser.collect Samples.linked_image ≠ EBirdBrowser.spec_collect Samples.linked_image
  ∧ EBirdBrowser.scrape_ebird_photos (Ok Samples.linked_image) = [ "11111111"; "22222222" ].
Proof. vm_compute. repeat split; discriminate. Qed.

(** ** The iNaturalist scraper *)

Lemma bind_Ok {A B} (m : result A) (f : A → result B) (b : B) :
  m ≫= f = Ok b ↔ ∃ a, m = Ok a ∧ f a = Ok b.
Proof.
  split.
  - destruct m as [a|e]; [eauto | discriminate].
  - by intros (a & -> & Hf).
Qed.

(** The loop body appends a record exactly when [normalized] holds. *)
Lemma normalize_Some obs o :
  INat.normalize_observation obs = Ok (Some o) ↔ INat.normalized obs o.
Proof.
  split.
  - unfold INat.normalize_observation. intros H.
    apply bind_Ok in H as (photos & Hphotos & H).
    destruct (py_truthy photos) eqn:Hphotos_true; [simpl in H | discriminate].
    apply bind_Ok in H as (photo & Hphoto & H).
    apply bind_Ok in H as (taxon & Htaxon & H).
    apply bind_Ok in H as (common_name & Hcommon & H).
    apply bind_Ok in H as (scientific_name & Hscientific & H).
    apply bind_Ok in H as (user & Huser & H).
    apply bind_Ok in H as (observer_login & Hlogin & H).
    apply bind_Ok in H as (observer_name & Hname & H).
    apply bind_Ok in H as (place_guess & Hplace & H).
    cbv zeta in H.
    apply bind_Ok in H as (created_at & Hcreated & H).
    apply bind_Ok in H as (observed_on & Hobserved & H).
    apply bind_Ok in H as (license_code & Hcode & H).
    destruct (py_truthy license_code) eqn:Hcode_true; [simpl in H | discriminate].
    apply bind_Ok in H as (license_name & Hlicense_name & H).
    apply bind_Ok in H as (license_url & Hlicense_url & H).
    apply bind_Ok in H as (url & Hurl & H).
    apply bind_Ok in H as (image_url & Himage & H).
    apply bind_Ok in H as (id & Hid & H).
    apply bind_Ok in H as (id' & Hid' & H).
    apply bind_Ok in H as (quality_grade & Hquality & H).
    assert (id' = id) as -> by congruence.
    injection H as <-. by econstructor.
  - destruct 1 as [photos photo taxon common_name scientific_name user
      observer_login observer_name place_guess created_at observed_on
      license_code license_name license_url url image_url id quality_grade
      Hphotos Hphotos_true Hphoto Htaxon Hcommon Hscientific Huser Hlogin Hname
      Hplace Hcreated Hobserved Hcode Hcode_true Hlicense_name Hlicense_url
      Hurl Himage Hid Hquality].
    unfold INat.normalize_observation.
    rewrite Hphotos. simpl. rewrite Hphotos_true. simpl.
    rewrite Hphoto. simpl. rewrite Htaxon. simpl. rewrite Hcommon. simpl.
    rewrite Hscientific. simpl. rewrite Huser. simpl. rewrite Hlogin. simpl.
    rewrite Hname. simpl. rewrite Hplace. simpl. rewrite Hcreated. simpl.
    rewrite Hobserved. simpl. rewrite Hcode. simpl. rewrite Hcode_true. simpl.
    rewrite Hlicense_name. simpl. rewrite Hlicense_url. simpl.
    rewrite Hurl. simpl. rewrite Himage. simpl. rewrite Hid. simpl.
    rewrite Hquality. reflexivity.
Qed.

Lemma process_results_cons per_page obs results observations :
  INat.process_results per_page (obs :: results) observations =
  r ← INat.normalize_observation obs;
  match r with
  | None => INat.process_results per_page results observations
  | Some observation =>
      if per_page <=? Z.of_nat (length (observations ++ [observation]))
      then Ok (observations ++ [observation])
      else INat.process_results per_page results (observations ++ [observation])
  end.
Proof. reflexivity. Qed.

(** Every record of the output was built from one of the results. *)
Lemma process_results_from per_page results observations out :
  INat.process_results per_page results observations = Ok out →
  ∀ o, o ∈ out →
    o ∈ observations ∨ ∃ obs, obs ∈ results ∧ INat.normalize_observation obs = Ok (Some o).
Proof.
  revert observations.
  induction results as [|obs results IH]; intros observations Hout o Ho.
  - injection Hout as <-. by left.
  - rewrite process_results_cons in Hout.
    apply bind_Ok in Hout as ([observation|] & Hobs & Hout).
    + assert (o ∈ observations ++ [observation] →
              o ∈ observations ∨
              ∃ obs', obs' ∈ obs :: results ∧ INat.normalize_observation obs' = Ok (Some o))
        as Hnew.
      { rewrite elem_of_app, list_elem_of_singleton. intros [?| ->]; [by left|].
        right. exists obs. split; [by left | done]. }
      destruct (per_page <=? _).
      * injection Hout as <-. by apply Hnew.
      * destruct (IH _ Hout o Ho) as [Hin|(obs' & Hin & Hobs')]; [by apply Hnew|].
        right. exists obs'. split; [by right | done].
    + destruct (IH _ Hout o Ho) as [Hin|(obs' & Hin & Hobs')]; [by left|].
      right. exists obs'. split; [by right | done].
Qed.

(** The loop stops at the bound, which it tests after the [append]. *)
Lemma process_results_bound per_page results observations out :
  INat.process_results per_page results observations = Ok out →
  Z.of_nat (length observations) < per_page ∨ observations = [] →
  Z.of_nat (length out) ≤ Z.max 1 per_page.
Proof.
  revert observations.
  induction results as [|obs results IH]; intros observations Hout Hroom.
  - injection Hout as <-. destruct Hroom as [?| ->]; simpl; lia.
  - rewrite process_results_cons in Hout.
    apply bind_Ok in Hout as ([observation|] & Hobs & Hout); [|by eapply IH].
    destruct (Z.leb_spec per_page (Z.of_nat (length (observations ++ [observation]))))
      as [Hfull|Hmore].
    + injection Hout as <-. rewrite length_app in *. simpl in *.
      destruct Hroom as [?| ->]; simpl; lia.
    + eapply IH; [done|]. by left.
Qed.

(** With a bound of 0 or less the loop stops at the first record. *)
Lemma process_results_first per_page results :
  per_page ≤ 0 →
  Exists (λ obs, ∃ o, INat.normalize_observation obs = Ok (Some o)) results →
  (∃ e, INat.process_results per_page results [] = Raise e)
  ∨ (∃ o, INat.process_results per_page results [] = Ok [o]).
Proof.
  intros Hle. induction 1 as [obs results [o Ho]|obs results _ IH];
    rewrite process_results_cons.
  - rewrite Ho. simpl. right. exists o.
    by rewrite (proj2 (Z.leb_le per_page (Z.of_nat 1))) by lia.
  - destruct (INat.normalize_observation obs) as [[o|]|e]; simpl.
    + right. exists o. by rewrite (proj2 (Z.leb_le per_page (Z.of_nat 1))) by lia.
    + done.
    + left. by exists e.
Qed.

Lemma try_scrape_results api taxon_id quality_grade per_page kwargs kvs results :
  api (INat.build_params taxon_id quality_grade per_page kwargs) = Ok (PDict kvs) →
  dict_lookup "results" kvs = Some (PList results) →
  INat.try_scrape api taxon_id quality_grade per_page kwargs =
  INat.process_results per_page results [].
Proof.
  intros Hapi Hresults. unfold INat.try_scrape. rewrite Hapi. simpl.
  by rewrite Hresults.
Qed.

Lemma try_scrape_bound api taxon_id quality_grade per_page kwargs out :
  INat.try_scrape api taxon_id quality_grade per_page kwargs = Ok out →
  Z.of_nat (length out) ≤ Z.max 1 per_page.
Proof.
  unfold INat.try_scrape. intros H.
  apply bind_Ok in H as (data & _ & H).
  apply bind_Ok in H as (results & _ & H).
  apply bind_Ok in H as (total_results & _ & H).
  apply bind_Ok in H as (n & _ & H).
  apply bind_Ok in H as (items & _ & H).
  eapply process_results_bound; [done | by right].
Qed.

(** A failing transport fails the [try] block. *)
Lemma try_scrape_transport api taxon_id quality_grade per_page kwargs e :
  api (INat.build_params taxon_id quality_grade per_page kwargs) = Raise e →
  INat.try_scrape api taxon_id quality_grade per_page kwargs = Raise e.
Proof. intros H. unfold INat.try_scrape. by rewrite H. Qed.

(** The observer of a record is the value under the key [name] of the user
    when the key is there, and the login when the key is missing. *)
Lemma observer_field obs o :
  INat.normalize_observation obs = Ok (Some o) →
  ∃ user observer_login,
    py_get obs "user" (PDict []) = Ok user
    ∧ py_get user "login" (PStr "Unknown") = Ok observer_login
    ∧ py_get o "observer_login" PNone = Ok observer_login
    ∧ py_get o "observer" PNone = py_get user "name" observer_login.
Proof.
  intros H%normalize_Some. destruct H.
  eexists _, _. repeat split; [done..|]. simpl. congruence.
Qed.

Example observer_name_key_missing :
  INat.normalize_observation
    (PDict [ ("photos", PList [ PDict [ ("license_code", PStr "cc-by") ] ]);
             ("user", PDict [ ("login", PStr "jdoe") ]) ])
  ≫= (λ r, match r with Some o => py_get o "observer" PNone | None => Ok PNone end)
  = Ok (PStr "jdoe").
Proof. reflexivity. Qed.

Lemma py_get_dict x k dflt v :
  py_get x k dflt = Ok v → ∃ kvs, x = PDict kvs.
Proof. destruct x; try discriminate. eauto. Qed.

Lemma py_index0_truthy x v : py_index0 x = Ok v → py_truthy x = true.
Proof. destruct x as [| | |[|c s]|[|y l]|]; simpl; done. Qed.

(** A result with a licensed photo, whose taxon and user are objects and
    whose photo URL is a string, yields a record. *)
Lemma normalize_well_formed obs photos photo code taxon user url :
  py_get obs "photos" (PList []) = Ok photos →
  py_index0 photos = Ok photo →
  py_get photo "license_code" PNone = Ok (PStr code) →
  code ≠ EmptyString →
  py_get obs "taxon" (PDict []) = Ok (PDict taxon) →
  py_get obs "user" (PDict []) = Ok (PDict user) →
  py_get photo "url" (PStr "") = Ok (PStr url) →
  ∃ o, INat.normalize_observation obs = Ok (Some o).
Proof.
  intros Hphotos Hphoto Hcode Hne Htaxon Huser Hurl.
  destruct (py_get_dict _ _ _ _ Hphotos) as [kvs ->].
  assert (∃ license_url, INat.get_license_url (PStr code) = Ok license_url)
    as [license_url Hlicense_url].
  { unfold INat.get_license_url. simpl. destruct (String.eqb _ _); eauto. }
  eexists. apply normalize_Some.
  eapply (INat.Normalized _ photos photo (PDict taxon) _ _ (PDict user));
    first [ done | reflexivity | by eapply py_index0_truthy
          | exact Hlicense_url | (simpl; by destruct code) ].
Qed.

(** The license fields of a record. *)
Lemma license_fields obs o :
  INat.normalize_observation obs = Ok (Some o) →
  ∃ photos photo license_code license_name license_url,
    py_get obs "photos" (PList []) = Ok photos
    ∧ py_index0 photos = Ok photo
    ∧ py_get photo "license_code" PNone = Ok license_code
    ∧ py_truthy license_code = true
    ∧ INat.get_license_name license_code = Ok license_name
    ∧ INat.get_license_url license_code = Ok license_url
    ∧ py_get o "license_name" PNone = Ok (PStr license_name)
    ∧ py_get o "license_url" PNone = Ok (PStr license_url).
Proof.
  intros H%normalize_Some. destruct H.
  eexists _, _, _, _, _. repeat split; done.
Qed.

(** C3.  A raw result whose photo list is empty is skipped; a raw result
    whose first photo has no license code never yields a record; a raw result
    whose first photo has the license code cc0 yields (when its taxon and user
    are objects and its photo URL is a string) a record, and any record it
    yields has the public-domain deed URL as license_url and
    CC0 (Public Domain) as license_name; and every record of the output list
    was built from one of the raw results that yield a record. *)
Theorem normalizer_skips_and_maps_cc0 (obs photos photo : pyval) :
  (py_get obs "photos" (PList []) = Ok (PList []) →
   INat.normalize_observation obs = Ok None)
  ∧ (py_get obs "photos" (PList []) = Ok photos →
     py_index0 photos = Ok photo →
     py_get photo "license_code" PNone = Ok PNone →
     ∀ o, INat.normalize_observation obs ≠ Ok (Some o))
  ∧ (py_get obs "photos" (PList []) = Ok photos →
     py_index0 photos = Ok photo →
     py_get photo "license_code" PNone = Ok (PStr "cc0") →
     (∀ o, INat.normalize_observation obs = Ok (Some o) →
        py_get o "license_url" PNone =
          Ok (PStr "https://creativecommons.org/publicdomain/zero/1.0/")
        ∧ py_get o "license_name" PNone = Ok (PStr "CC0 (Public Domain)"))
     ∧ (∀ taxon user url,
          py_get obs "taxon" (PDict []) = Ok (PDict taxon) →
          py_get obs "user" (PDict []) = Ok (PDict user) →
          py_get photo "url" (PStr "") = Ok (PStr url) →
          ∃ o, INat.normalize_observation obs = Ok (Some o)))
  ∧ (∀ per_page results out o,
       INat.process_results per_page results [] = Ok out →
       o ∈ out →
       ∃ obs', obs' ∈ results ∧ INat.normalize_observation obs' = Ok (Some o)).
Proof.
  split; [|split; [|split]].
  - intros Hphotos. unfold INat.normalize_observation. by rewrite Hphotos.
  - intros Hphotos Hphoto Hcode o Ho.
    destruct (license_fields _ _ Ho)
      as (photos' & photo' & code & name & url & Hphotos' & Hphoto' & Hcode' & Htrue & _).
    assert (code = PNone) as -> by congruence. discriminate.
  - intros Hphotos Hphoto Hcode. split.
    + intros o Ho.
      destruct (license_fields _ _ Ho)
        as (photos' & photo' & code & name & url & Hphotos' & Hphoto' & Hcode' & _
            & Hname & Hurl & -> & ->).
      assert (code = PStr "cc0") as -> by congruence.
      injection Hname as <-. injection Hurl as <-. done.
    + intros taxon user url. by eapply normalize_well_formed.
  - intros per_page results out o Hout Ho.
    destruct (process_results_from _ _ _ _ Hout o Ho) as [Hin|?]; [|done].
    by apply elem_of_nil in Hin.
Qed.

Lemma normalizer_skips_and_maps_cc0_witness :
  INat.normalize_observation Samples.no_photo = Ok None
  ∧ (∀ o, INat.normalize_observation Samples.no_license ≠ Ok (Some o))
  ∧ (∃ o, INat.normalize_observation Samples.cc0_observation = Ok (Some o)
          ∧ py_get o "license_url" PNone =
              Ok (PStr "https://creativecommons.org/publicdomain/zero/1.0/")
          ∧ py_get o "license_name" PNone = Ok (PStr "CC0 (Public Domain)"))
  ∧ (∃ o obs,
       INat.process_results 30
         [ Samples.no_photo; Samples.no_license; Samples.cc0_observation ] [] = Ok [o]
       ∧ obs ∈ [ Samples.no_photo; Samples.no_license; Samples.cc0_observation ]
       ∧ INat.normalize_observation obs = Ok (Some o)).
Proof.
  split; [|split; [|split]].
  - apply (normalizer_skips_and_maps_cc0 Samples.no_photo PNone PNone). reflexivity.
  - eapply (normalizer_skips_and_maps_cc0 Samples.no_license); reflexivity.
  - destruct (normalizer_skips_and_maps_cc0 Samples.cc0_observation
                (PList [ PDict [ ("url", PStr "https://static.inaturalist.org/photos/2/square.jpg");
                                 ("license_code", PStr "cc0") ] ])
                (PDict [ ("url", PStr "https://static.inaturalist.org/photos/2/square.jpg");
                         ("license_code", PStr "cc0") ]))
      as (_ & _ & Hcc0 & _).
    destruct (Hcc0 eq_refl eq_refl eq_refl) as [Hfields Hrecord].
    destruct (Hrecord _ _ _ eq_refl eq_refl eq_refl) as [o Ho].
    exists o. split; [exact Ho | exact (Hfields o Ho)].
  - destruct (normalizer_skips_and_maps_cc0 PNone PNone PNone) as (_ & _ & _ & Hfrom).
    destruct (Hfrom 30 [ Samples.no_photo; Samples.no_license; Samples.cc0_observation ]
                _ _ eq_refl (list_elem_of_here _ _)) as (obs & Hin & Hobs).
    eexists _, obs. split; [reflexivity|]. split; [exact Hin | exact Hobs].
Defined.

(** C4.  When the [try] block of the iNaturalist fetch raises an exception
    (of the transport or while the results are processed), the pipeline
    returns the one-element list of placeholder data, and the file written
    has count 1 and a sole observation whose species_scientific is
    Genus species. *)
Theorem failure_yields_placeholder
    (api : list (string * pyval) → result pyval) (now taxon_id quality_grade : string)
    (per_page : Z) (kwargs : list (string * pyval)) (fs : gmap string pyval) (e : exn) :
  INat.try_scrape api taxon_id quality_grade per_page kwargs = Raise e →
  INat.scrape_inat_observations api taxon_id quality_grade per_page kwargs
    = INat.get_fallback_observations
  ∧ ∃ o fields,
      INat.get_fallback_observations = [o]
      ∧ py_get o "species_scientific" PNone = Ok (PStr "Genus species")
      ∧ INat.main api now taxon_id quality_grade per_page kwargs fs
          !! "inatslide/observations.json" = Some (PDict fields)
      ∧ dict_lookup "count" fields = Some (PInt 1)
      ∧ dict_lookup "observations" fields = Some (PList [o]).
Proof.
  intros Hraise.
  assert (INat.scrape_inat_observations api taxon_id quality_grade per_page kwargs
          = INat.get_fallback_observations) as Hout.
  { unfold INat.scrape_inat_observations. by rewrite Hraise. }
  split; [done|].
  eexists _, _. split; [reflexivity|]. split; [reflexivity|].
  unfold INat.main, INat.save_observations. rewrite Hout, lookup_insert_eq.
  split; [reflexivity|]. split; reflexivity.
Qed.

Lemma failure_yields_placeholder_witness :
  INat.scrape_inat_observations Samples.timeout_api "551307" "" 2 []
    = INat.get_fallback_observations
  ∧ ∃ o fields,
      INat.get_fallback_observations = [o]
      ∧ py_get o "species_scientific" PNone = Ok (PStr "Genus species")
      ∧ INat.main Samples.timeout_api "2025-12-15T00:00:00" "551307" "" 2 [] ∅
          !! "inatslide/observations.json" = Some (PDict fields)
      ∧ dict_lookup "count" fields = Some (PInt 1)
      ∧ dict_lookup "observations" fields = Some (PList [o]).
Proof.
  apply (failure_yields_placeholder Samples.timeout_api "2025-12-15T00:00:00"
           "551307" "" 2 [] ∅ RequestException).
  reflexivity.
Defined.

(** An exception while a result is processed also discards the records
    gathered before it. *)
Example parse_failure_discards_partial_list :
  INat.scrape_inat_observations
    (Samples.stub_api [ Samples.cc0_observation;
                        PDict [ ("photos", PList [ PDict [] ]); ("taxon", PNone) ] ])
    "" "" 30 []
  = INat.get_fallback_observations.
Proof. reflexivity. Qed.

Lemma normalized_image_url obs o :
  INat.normalize_observation obs = Ok (Some o) →
  ∃ photos photo url,
    py_get obs "photos" (PList []) = Ok photos
    ∧ py_index0 photos = Ok photo
    ∧ py_get photo "url" (PStr "") = Ok (PStr url)
    ∧ py_get o "image_url" PNone = Ok (PStr (Str.replace "square" "large" url)).
Proof.
  intros H%normalize_Some.
  destruct H as [photos photo ? ? ? ? ? ? ? ? ? ? ? ? url image_url ? ?
                   ? ? ? ? ? ? ? ? ? ? ? ? ? ? ? ? Hurl Himage ? ?].
  destruct url as [| | |url| |]; try discriminate.
  injection Himage as <-. by eexists _, _, _.
Qed.

(** C6 (amended).  The image URL of a record is the photo URL with every
    occurrence of square replaced by large, scanning from the left: a URL
    without the substring is unchanged; otherwise the leftmost occurrence is
    replaced and the rewrite goes on after it; and when the URL holds exactly
    one occurrence, exactly that occurrence is replaced. *)
Theorem image_url_rewrite (url : string) :
  (Str.find "square" url = None →
   py_replace (PStr url) "square" "large" = Ok url)
  ∧ (∀ i, Str.find "square" url = Some i →
       url = Str.take i url +:+ "square" +:+ Str.drop (i + 6) url
       ∧ py_replace (PStr url) "square" "large" =
           Ok (Str.take i url +:+ "large" +:+
               Str.replace "square" "large" (Str.drop (i + 6) url))
       ∧ (Str.find "square" (Str.drop (i + 6) url) = None →
          py_replace (PStr url) "square" "large" =
            Ok (Str.take i url +:+ "large" +:+ Str.drop (i + 6) url)))
  ∧ (∀ obs o,
       INat.normalize_observation obs = Ok (Some o) →
       ∃ photos photo photo_url,
         py_get obs "photos" (PList []) = Ok photos
         ∧ py_index0 photos = Ok photo
         ∧ py_get photo "url" (PStr "") = Ok (PStr photo_url)
         ∧ py_get o "image_url" PNone =
             Ok (PStr (Str.replace "square" "large" photo_url))).
Proof.
  assert ("square" ≠ EmptyString) as Hne by done.
  split; [|split].
  - intros Hnone. unfold py_replace. f_equal. by apply replace_absent.
  - intros i Hi. split; [|split].
    + by apply (find_occurrence "square").
    + unfold py_replace. f_equal. by apply (replace_first "square" "large").
    + intros Hrest. unfold py_replace. f_equal.
      by apply (replace_single "square" "large").
  - apply normalized_image_url.
Qed.

Lemma image_url_rewrite_witness :
  py_replace (PStr "https://static.inaturalist.org/photos/1/square.jpg") "square" "large"
  = Ok "https://static.inaturalist.org/photos/1/large.jpg"
  ∧ py_replace (PStr "https://static.inaturalist.org/photos/1/medium.jpg") "square" "large"
    = Ok "https://static.inaturalist.org/photos/1/medium.jpg"
  ∧ (∃ o, INat.normalize_observation Samples.cc0_observation = Ok (Some o)
          ∧ py_get o "image_url" PNone =
              Ok (PStr "https://static.inaturalist.org/photos/2/large.jpg")).
Proof.
  split; [|split].
  - destruct (image_url_rewrite "https://static.inaturalist.org/photos/1/square.jpg")
      as (_ & Hfound & _).
    destruct (Hfound 40%nat eq_refl) as (_ & _ & Hsingle).
    exact (Hsingle eq_refl).
  - destruct (image_url_rewrite "https://static.inaturalist.org/photos/1/medium.jpg")
      as (Habsent & _).
    exact (Habsent eq_refl).
  - destruct (image_url_rewrite EmptyString) as (_ & _ & Hrecord).
    assert (∃ o, INat.normalize_observation Samples.cc0_observation = Ok (Some o))
      as [o Ho] by (eexists; reflexivity).
    destruct (Hrecord _ o Ho) as (photos & photo & url & Hphotos & Hphoto & Hurl & Himage).
    exists o. split; [exact Ho|].
    injection Hphotos as <-. injection Hphoto as <-. injection Hurl as <-.
    exact Himage.
Defined.

(** C6 as stated fails on a URL with two occurrences: both are replaced,
    not one. *)
Lemma one_occurrence_fails_on_two :
  Str.find "square" Samples.square_twice = Some 10%nat
  ∧ py_replace (PStr Samples.square_twice) "square" "large" = Ok "https://x/large/large.jpg"
  ∧ py_replace (PStr Samples.square_twice) "square" "large"
    ≠ Ok (Str.take 10 Samples.square_twice +:+ "large" +:+ Str.drop 16 Samples.square_twice).
Proof. vm_compute. repeat split; discriminate. Qed.

(** C7 at the failing input: for a user whose [name] is null the observer
    of the record is null, not the login. *)
Theorem observer_is_null_for_null_name :
  ∃ o, INat.normalize_observation Samples.unnamed_observer = Ok (Some o)
       ∧ py_get o "observer" PNone = Ok PNone
       ∧ py_get o "observer_login" PNone = Ok (PStr "jdoe").
Proof. eexists. repeat split; reflexivity. Qed.

(** C8.  The license code cc-by-nc maps to the by-nc 4.0 deed URL. *)
Theorem license_url_cc_by_nc :
  INat.get_license_url (PStr "cc-by-nc")
  = Ok "https://creativecommons.org/licenses/by-nc/4.0/".
Proof. reflexivity. Qed.


(** C10.  The stop condition is tested after the append: with a requested
    count of 0 and at least one result that yields a record, the returned
    list holds exactly 1 observation; and for every requested count and
    every API response the returned list holds at most max(1, count)
    observations. *)
Theorem stop_checked_after_append
    (api : list (string * pyval) → result pyval) (taxon_id quality_grade : string)
    (per_page : Z) (kwargs : list (string * pyval))
    (fields : list (string * pyval)) (results : list pyval) :
  (api (INat.build_params taxon_id quality_grade 0 kwargs) = Ok (PDict fields) →
   dict_lookup "results" fields = Some (PList results) →
   Exists (λ obs, ∃ o, INat.normalize_observation obs = Ok (Some o)) results →
   length (INat.scrape_inat_observations api taxon_id quality_grade 0 kwargs) = 1%nat)
  ∧ Z.of_nat (length (INat.scrape_inat_observations api taxon_id quality_grade per_page kwargs))
    ≤ Z.max 1 per_page.
Proof.
  split.
  - intros Hapi Hresults Hsome. unfold INat.scrape_inat_observations.
    rewrite (try_scrape_results _ _ _ _ _ _ _ Hapi Hresults).
    destruct (process_results_first 0 results) as [[e ->]|[o ->]]; done.
  - unfold INat.scrape_inat_observations.
    destruct (INat.try_scrape _ _ _ _ _) as [out|e] eqn:Hout.
    + by eapply try_scrape_bound.
    + simpl. lia.
Qed.

Lemma stop_checked_after_append_witness :
  length (INat.scrape_inat_observations
            (Samples.stub_api [ Samples.no_photo; Samples.cc0_observation;
                                Samples.unnamed_observer ]) "" "" 0 []) = 1%nat.
Proof.
  eapply (stop_checked_after_append _ "" "" 0 []); [reflexivity | reflexivity |].
  apply Exists_cons_tl, Exists_cons_hd. eexists. reflexivity.
Defined.

(** * Further properties of the code *)

(** ** Strings *)

Lemma str_app_cons (c : ascii) (u v : string) :
  String c u +:+ v = String c (u +:+ v).
Proof. reflexivity. Qed.

Lemma str_app_nil_r (s : string) : s +:+ EmptyString = s.
Proof. induction s as [|c s IH]; [done|]. by rewrite str_app_cons, IH. Qed.

Lemma str_app_assoc (u v w : string) : (u +:+ v) +:+ w = u +:+ v +:+ w.
Proof. induction u as [|c u IH]; [done|]. by rewrite !str_app_cons, IH. Qed.

Lemma str_app_length (u v : string) :
  String.length (u +:+ v) = (String.length u + String.length v)%nat.
Proof. induction u as [|c u IH]; [done|]. rewrite str_app_cons. simpl. by rewrite IH. Qed.

Lemma occurs_in_refl g : occurs_in g g.
Proof. exists EmptyString, EmptyString. by rewrite str_app_nil_r. Qed.

Lemma occurs_in_app_l g u v : occurs_in g u → occurs_in g (u +:+ v).
Proof.
  intros (pre & post & ->). exists pre, (post +:+ v).
  by rewrite !str_app_assoc.
Qed.

Lemma occurs_in_app_r g u v : occurs_in g v → occurs_in g (u +:+ v).
Proof.
  intros (pre & post & ->). exists (u +:+ pre), post.
  by rewrite !str_app_assoc.
Qed.

Lemma occurs_in_cons g c s : occurs_in g s → occurs_in g (String c s).
Proof. apply (occurs_in_app_r g (String c EmptyString) s). Qed.

Lemma occurs_in_empty s : occurs_in EmptyString s.
Proof. by exists EmptyString, s. Qed.

(** ** The matcher is sound for the language of the pattern *)

Lemma rep_sound p lo hi k pos prev rest cs m :
  Re.rep p lo hi k pos prev rest cs = Some m →
  ∃ w rest' prev',
    rest = w +:+ rest' ∧ Lang.matches (Re.Rep p lo hi) w []
    ∧ k (pos + String.length w)%nat prev' rest' cs = Some m.
Proof.
  revert lo hi pos prev.
  assert (Hstop : ∀ lo hi pos prev rest,
    match lo with O => k pos prev rest cs | S _ => None end = Some m →
    ∃ w rest' prev',
      rest = w +:+ rest' ∧ Lang.matches (Re.Rep p lo hi) w []
      ∧ k (pos + String.length w)%nat prev' rest' cs = Some m).
  { intros [|lo] hi pos prev rest0 H; [|done].
    exists EmptyString, rest0, prev. rewrite Nat.add_0_r.
    repeat split; [|done]. constructor; simpl; [done | lia | intros; lia]. }
  induction rest as [|c rest IH]; intros lo hi pos prev H.
  - apply (Hstop lo hi pos prev). by destruct hi as [[|h]|].
  - rewrite rep_cons in H. cbv zeta in H.
    case_bool_decide as Hhi; [by apply (Hstop lo hi pos prev)|].
    destruct (p c) eqn:Hpc; [|by apply (Hstop lo hi pos prev)].
    destruct (Re.rep p (pred lo) (pred <$> hi) k (S pos) (Some c) rest cs)
      as [m'|] eqn:Hrec; [|by apply (Hstop lo hi pos prev)].
    injection H as ->.
    destruct (IH _ _ _ _ Hrec) as (w & rest' & prev' & -> & Hw & Hk).
    exists (String c w), rest', prev'.
    split; [done|]. split; [|simpl String.length; by rewrite <- Nat.add_succ_comm].
    inversion Hw as [| | | | |? ? ? ? Hall Hlo Hup| |]; subst.
    constructor; simpl.
    + by rewrite Hpc, Hall.
    + lia.
    + intros h ->. destruct h as [|h]; [done|].
      specialize (Hup h eq_refl). lia.
Qed.

Lemma run_sound r :
  ∀ k pos prev rest cs m,
    Re.run r k pos prev rest cs = Some m →
    ∃ w prev' rest' new,
      rest = w +:+ rest' ∧ Lang.matches r w new
      ∧ k (pos + String.length w)%nat prev' rest' (new ++ cs) = Some m.
Proof.
  induction r as [|p|r1 IH1 r2 IH2|r1 IH1 r2 IH2|p lo hi|n r IH|];
    intros k pos prev rest cs m Hrun; simpl in Hrun.
  - exists EmptyString, prev, rest, []. rewrite Nat.add_0_r.
    repeat split; [constructor | done].
  - destruct rest as [|c rest]; [done|]. destruct (p c) eqn:Hpc; [|done].
    exists (String c EmptyString), (Some c), rest, [].
    repeat split; [by constructor|]. by rewrite Nat.add_1_r.
  - apply IH1 in Hrun as (w1 & prev1 & rest1 & new1 & -> & Hw1 & Hrun).
    apply IH2 in Hrun as (w2 & prev2 & rest2 & new2 & -> & Hw2 & Hk).
    exists (w1 +:+ w2), prev2, rest2, (new2 ++ new1).
    rewrite str_app_assoc, str_app_length, Nat.add_assoc, <- (assoc_L (++)).
    repeat split; [by constructor | done].
  - destruct (Re.run r1 k pos prev rest cs) as [m'|] eqn:Hleft.
    + injection Hrun as ->.
      apply IH1 in Hleft as (w & prev' & rest' & new & -> & Hw & Hk).
      exists w, prev', rest', new. repeat split; [by apply Lang.m_alt_l | done].
    + apply IH2 in Hrun as (w & prev' & rest' & new & -> & Hw & Hk).
      exists w, prev', rest', new. repeat split; [by apply Lang.m_alt_r | done].
  - apply rep_sound in Hrun as (w & rest' & prev' & -> & Hw & Hk).
    by exists w, prev', rest', [].
  - apply IH in Hrun as (w & prev' & rest' & new & -> & Hw & Hk).
    exists w, prev', rest', ((n, w) :: new).
    repeat split; [by constructor|].
    replace (pos + String.length w - pos)%nat with (String.length w) in Hk by lia.
    by rewrite str_take_app_length in Hk.
  - destruct (xorb _ _); [|done].
    exists EmptyString, prev, rest, []. rewrite Nat.add_0_r.
    repeat split; [constructor | done].
Qed.

Lemma match_at_sound r prev s n cs :
  Re.match_at r prev s = Some (n, cs) →
  ∃ w rest, s = w +:+ rest ∧ n = String.length w ∧ Lang.matches r w cs.
Proof.
  intros H. apply run_sound in H as (w & prev' & rest' & new & -> & Hw & [= <- <-]).
  exists w, rest'. by rewrite app_nil_r.
Qed.

(** What a match captures lies inside the matched text. *)
Lemma matches_within r w cs :
  Lang.matches r w cs → Forall (λ nv, occurs_in nv.2 w) cs.
Proof.
  induction 1 as [|p c Hc|r1 r2 w1 w2 cs1 cs2 _ IH1 _ IH2| | | |n r w cs _ IH|];
    try done.
  - apply Forall_app. split.
    + eapply Forall_impl; [exact IH2|]. intros nv. apply occurs_in_app_r.
    + eapply Forall_impl; [exact IH1|]. intros nv. apply occurs_in_app_l.
  - constructor; [apply occurs_in_refl | done].
Qed.

Lemma lookup_group_cons n n' v cs :
  Re.lookup_group n ((n', v) :: cs) =
  if Nat.eqb n n' then Some v else Re.lookup_group n cs.
Proof. reflexivity. Qed.

Lemma lookup_group_app n cs1 cs2 :
  is_Some (Re.lookup_group n cs1) ∨ is_Some (Re.lookup_group n cs2) →
  is_Some (Re.lookup_group n (cs2 ++ cs1)).
Proof.
  induction cs2 as [|[n' v] cs2 IH].
  - intros [?|[? [=]]]. done.
  - rewrite <- app_comm_cons, !lookup_group_cons.
    destruct (Nat.eqb n n'); [by eauto | done].
Qed.

Lemma matches_captures_group1 r w cs :
  Lang.captures_group1 r → Lang.matches r w cs → is_Some (Re.lookup_group 1 cs).
Proof.
  intros Hr Hm. revert Hr.
  induction Hm as [| |r1 r2 w1 w2 cs1 cs2 _ IH1 _ IH2|r1 r2 w cs _ IH|r1 r2 w cs _ IH|
                   |n r w cs _ IH|]; inversion 1; subst;
    try (apply lookup_group_app; by eauto); eauto.
  rewrite lookup_group_cons. destruct (Nat.eqb 1 n); eauto.
Qed.

Lemma matches_sized_group1 lo0 hi0 r w cs :
  Lang.sized_group1 lo0 hi0 r → Lang.matches r w cs →
  Forall (λ nv, nv.1 = 1%nat → digits_between lo0 hi0 nv.2) cs.
Proof.
  intros Hr Hm. revert Hr.
  induction Hm as [| |r1 r2 w1 w2 cs1 cs2 _ IH1 _ IH2|r1 r2 w cs _ IH|r1 r2 w cs _ IH|
                   |n r w cs Hm IH|]; inversion 1; subst; try done; eauto.
  - apply Forall_app. eauto.
  - inversion Hm as [| | | | |? ? ? ? Hall Hlo Hup| |]; subst.
    repeat constructor; simpl; [done | lia | specialize (Hup _ eq_refl); lia].
  - constructor; [done | eauto].
Qed.

Lemma findall_go_sound r skip prev s :
  Forall (λ cs, ∃ pre w post, s = pre +:+ w +:+ post ∧ Lang.matches r w cs)
         (Re.findall_go r skip prev s).
Proof.
  assert (Hcons : ∀ c s' (l : list Re.caps),
    Forall (λ cs, ∃ pre w post, s' = pre +:+ w +:+ post ∧ Lang.matches r w cs) l →
    Forall (λ cs, ∃ pre w post, String c s' = pre +:+ w +:+ post ∧ Lang.matches r w cs) l).
  { intros c s' l Hl. eapply Forall_impl; [exact Hl|].
    intros cs (pre & w & post & -> & Hw). by exists (String c pre), w, post. }
  revert skip prev.
  induction s as [|c s IH]; intros [|skip] prev; simpl; try done.
  - destruct (Re.match_at r prev _) as [[n cs]|] eqn:Hm; [|done].
    repeat constructor.
    apply match_at_sound in Hm as (w & rest & Hs & _ & Hw).
    by exists EmptyString, w, rest.
  - destruct (Re.match_at r prev _) as [[n cs]|] eqn:Hm; [|by apply Hcons].
    constructor; [|by apply Hcons].
    apply match_at_sound in Hm as (w & rest & Hs & _ & Hw).
    by exists EmptyString, w, rest.
  - by apply Hcons.
Qed.

Lemma search_sound r s cs :
  Re.search r s = Some cs →
  ∃ pre w post, s = pre +:+ w +:+ post ∧ Lang.matches r w cs.
Proof.
  unfold Re.search. generalize (@None ascii) as prev.
  induction s as [|c s IH]; intros prev; simpl;
    destruct (Re.match_at r prev _) as [[n cs']|] eqn:Hm.
  - intros [= <-]. apply match_at_sound in Hm as (w & rest & Hs & _ & Hw).
    by exists EmptyString, w, rest.
  - done.
  - intros [= <-]. apply match_at_sound in Hm as (w & rest & Hs & _ & Hw).
    by exists EmptyString, w, rest.
  - intros (pre & w & post & -> & Hw)%IH. by exists (String c pre), w, post.
Qed.

Lemma lookup_group_elem n cs v :
  Re.lookup_group n cs = Some v → (n, v) ∈ cs.
Proof.
  induction cs as [|[n' v'] cs IH]; [done|]. rewrite lookup_group_cons.
  destruct (Nat.eqb_spec n n') as [->|_].
  - intros [= ->]. left.
  - intros H. right. by apply IH.
Qed.

(** The text of group 1 of a match occurs in the searched text. *)
Lemma group_occurs r s pre w post cs :
  s = pre +:+ w +:+ post → Lang.matches r w cs → occurs_in (Re.group 1 cs) s.
Proof.
  intros -> Hw. unfold Re.group.
  destruct (Re.lookup_group 1 cs) as [v|] eqn:Hv; simpl; [|apply occurs_in_empty].
  apply lookup_group_elem in Hv.
  pose proof (matches_within _ _ _ Hw) as Hin. rewrite Forall_forall in Hin.
  apply occurs_in_app_r, occurs_in_app_l. exact (Hin _ Hv).
Qed.

Lemma findall_occurs r s g : g ∈ Re.findall r s → occurs_in g s.
Proof.
  unfold Re.findall. intros (cs & -> & Hcs)%list_elem_of_fmap.
  pose proof (findall_go_sound r 0 None s) as Hall. rewrite Forall_forall in Hall.
  destruct (Hall _ Hcs) as (pre & w & post & Hs & Hw). by eapply group_occurs.
Qed.

(** For a pattern whose matches all capture group 1 as [\d{lo,hi}], what
    [findall] returns are strings of [lo] to [hi] digits. *)
Lemma findall_sized lo hi r s g :
  Lang.sized_group1 lo hi r → Lang.captures_group1 r →
  g ∈ Re.findall r s → digits_between lo hi g.
Proof.
  intros Hsized Hcap. unfold Re.findall. intros (cs & -> & Hcs)%list_elem_of_fmap.
  pose proof (findall_go_sound r 0 None s) as Hall. rewrite Forall_forall in Hall.
  destruct (Hall _ Hcs) as (pre & w & post & Hs & Hw).
  destruct (matches_captures_group1 _ _ _ Hcap Hw) as [v Hv].
  unfold Re.group. rewrite Hv. simpl.
  pose proof (matches_sized_group1 _ _ _ _ _ Hsized Hw) as Hin.
  rewrite Forall_forall in Hin. by apply (Hin _ (lookup_group_elem _ _ _ Hv)).
Qed.

Lemma sized_str lo hi s : Lang.sized_group1 lo hi (Re.str s).
Proof. induction s; simpl; repeat constructor; done. Qed.

Lemma sized_istr lo hi s : Lang.sized_group1 lo hi (Re.istr s).
Proof. induction s; simpl; repeat constructor; done. Qed.

Lemma sized_seqs lo hi rs :
  Forall (Lang.sized_group1 lo hi) rs → Lang.sized_group1 lo hi (Re.seq rs).
Proof. induction 1; simpl; by constructor. Qed.

Lemma sized_lit lo hi c : Lang.sized_group1 lo hi (Re.lit c).
Proof. constructor. Qed.

Lemma sized_ilit lo hi c : Lang.sized_group1 lo hi (Re.ilit c).
Proof. constructor. Qed.

Lemma sized_star lo hi p : Lang.sized_group1 lo hi (Re.star p).
Proof. constructor. Qed.

Lemma sized_opt lo hi p : Lang.sized_group1 lo hi (Re.opt p).
Proof. constructor. Qed.

Lemma sized_digits lo0 hi0 lo hi :
  (lo0 ≤ lo)%nat → (hi ≤ hi0)%nat → Lang.sized_group1 lo0 hi0 (Re.digits lo hi).
Proof. by constructor. Qed.

Lemma captures_digits lo hi : Lang.captures_group1 (Re.digits lo hi).
Proof. constructor. Qed.

Create HintDb sized.
#[local] Hint Resolve sized_str sized_istr sized_lit sized_ilit sized_star sized_opt : sized.
#[local] Hint Constructors Lang.sized_group1 Forall : sized.
#[local] Hint Extern 1 (Lang.sized_group1 _ _ (Re.seq _)) => apply sized_seqs : sized.
#[local] Hint Extern 1 (Lang.sized_group1 _ _ (Re.digits _ _)) =>
  apply sized_digits; lia : sized.
#[local] Hint Extern 1 (_ ≠ _) => discriminate : sized.

(** A pattern that ends a sequence of parts with the digits group followed
    by further parts captures group 1. *)
Lemma captures_seqs rs :
  Exists Lang.captures_group1 rs → Lang.captures_group1 (Re.seq rs).
Proof.
  induction 1 as [r rs Hr|r rs _ IH]; simpl.
  - by apply Lang.c_seq_l.
  - by apply Lang.c_seq_r.
Qed.

Create HintDb cap.
#[local] Hint Resolve captures_digits : cap.
#[local] Hint Constructors Lang.captures_group1 Exists : cap.
#[local] Hint Extern 1 (Lang.captures_group1 (Re.seq _)) => apply captures_seqs : cap.

(** ** The eBird scrapers, further properties *)

Lemma digits_between_long lo hi a :
  (8 ≤ lo)%nat → digits_between lo hi a → EBird.long_enough a = true.
Proof.
  intros Hlo [_ [Hlen _]]. unfold EBird.long_enough. apply Nat.leb_le. lia.
Qed.

Lemma fallback_digits_between :
  Forall (digits_between 8 12) EBird.get_fallback_assets.
Proof. repeat constructor; simpl; lia. Qed.

Lemma browser_collect_sized pg :
  Forall (digits_between 8 12) (EBirdBrowser.collect pg).
Proof.
  rewrite browser_collect_eq. repeat apply Forall_app_2.
  - apply Forall_bind, Forall_forall. intros [src|] _; simpl; [|done].
    case_match; [|done]. apply Forall_forall. intros g.
    apply findall_sized; unfold EBirdBrowser.re_number; auto with sized cap.
  - apply Forall_bind, Forall_forall. intros [href|] _; simpl; [|done].
    case_match; [|done]. apply Forall_forall. intros g.
    apply findall_sized; unfold EBirdBrowser.re_asset; auto with sized cap.
  - apply Forall_forall. intros g.
    apply findall_sized; unfold EBirdBrowser.pattern1; auto with sized cap.
  - apply Forall_forall. intros g.
    apply findall_sized; unfold EBirdBrowser.pattern2; auto with sized cap.
  - apply Forall_forall. intros g.
    apply findall_sized;
      unfold EBirdBrowser.pattern3, EBirdBrowser.json_field, EBirdBrowser.quote_opt,
        EBirdBrowser.space_star; auto 20 with sized cap.
  - apply Forall_forall. intros g.
    apply findall_sized;
      unfold EBirdBrowser.pattern4, EBirdBrowser.json_field, EBirdBrowser.quote_opt,
        EBirdBrowser.space_star; auto 20 with sized cap.
  - apply Forall_forall. intros g.
    apply findall_sized; unfold EBirdBrowser.pattern5; auto 20 with sized cap.
  - apply Forall_forall. intros g.
    apply findall_sized;
      unfold EBirdBrowser.pattern6, EBirdBrowser.any_quote_opt, EBirdBrowser.space_star;
      auto 20 with sized cap.
Qed.

(** X1.  In the browser script every collected match is a string of 8 to 12
    digits, so the length test of the deduplication loop rejects nothing,
    and whatever the outcome of the fetch every returned identifier has 8 to
    12 digits. *)
Theorem browser_identifiers_have_8_to_12_digits
    (pg : EBirdBrowser.page) (fetched : result EBirdBrowser.page) :
  Forall (digits_between 8 12) (EBirdBrowser.collect pg)
  ∧ filter EBird.long_enough (EBirdBrowser.collect pg) = EBirdBrowser.collect pg
  ∧ Forall (digits_between 8 12) (EBirdBrowser.scrape_ebird_photos fetched).
Proof.
  split; [apply browser_collect_sized|]. split.
  - apply filter_all. eapply Forall_impl; [apply browser_collect_sized|].
    intros a Ha. apply Is_true_true. by eapply digits_between_long.
  - destruct fetched as [pg'|e]; [|apply fallback_digits_between].
    rewrite browser_scrape_eq.
    destruct (EBirdBrowser.first_occurrences_long pg') as [|a found] eqn:Hfound;
      [apply fallback_digits_between|].
    apply Forall_take. rewrite <- Hfound. apply Forall_forall. intros g.
    unfold EBirdBrowser.first_occurrences_long.
    rewrite elem_of_first_occurrences, list_elem_of_filter. intros [_ Hg].
    pose proof (browser_collect_sized pg') as Hall.
    rewrite Forall_forall in Hall. by apply Hall.
Qed.

Lemma find_all_elem r attrs v :
  v ∈ EBirdStatic.find_all r attrs → Some v ∈ attrs.
Proof.
  unfold EBirdStatic.find_all. intros ([a|] & Ha & Hv)%list_elem_of_omap; [|done].
  simpl in Hv. destruct (Re.search r a); [|done]. by injection Hv as <-.
Qed.

(** X2.  Every match that the static script collects comes from the page:
    it occurs in the href of an anchor, in the src of an image, is the
    data-asset-id of an element, or occurs in the text of the page. *)
Theorem static_matches_come_from_page (pg : EBirdStatic.page) :
  Forall (λ g,
            (∃ href, Some href ∈ EBirdStatic.a_hrefs pg ∧ occurs_in g href)
            ∨ (∃ src, Some src ∈ EBirdStatic.img_srcs pg ∧ occurs_in g src)
            ∨ g ∈ EBirdStatic.data_asset_ids pg
            ∨ occurs_in g (EBirdStatic.page_text pg))
         (EBirdStatic.collect pg).
Proof.
  rewrite static_collect_eq. repeat apply Forall_app_2; apply Forall_forall; intros g.
  - unfold EBirdStatic.link_matches.
    intros (href & Hg & Hhref%find_all_elem)%list_elem_of_bind.
    left. exists href. split; [done|].
    destruct (Re.search EBirdStatic.re_asset href) as [m|] eqn:Hm;
      [|by apply elem_of_nil in Hg].
    apply list_elem_of_singleton in Hg as ->.
    apply search_sound in Hm as (pre & w & post & Hs & Hw). by eapply group_occurs.
  - unfold EBirdStatic.image_matches.
    intros (src & Hg & Hsrc%find_all_elem)%list_elem_of_bind.
    right. left. exists src. split; [done|]. by eapply findall_occurs.
  - unfold EBirdStatic.data_matches.
    intros (asset_id & Hg & Hid)%list_elem_of_bind.
    right. right. left.
    destruct (_ && _); [|by apply elem_of_nil in Hg].
    by apply list_elem_of_singleton in Hg as ->.
  - intros Hg. do 3 right. by eapply findall_occurs.
Qed.

(** X3.  Every match that the browser script collects comes from what the
    browser handed over: it occurs in the src of one of the first 20 images,
    in the href of one of the first 50 anchors (one that mentions
    macaulaylibrary.org/asset), or in the page content. *)
Theorem browser_matches_come_from_page (pg : EBirdBrowser.page) :
  Forall (λ g,
            (∃ src, Some src ∈ take 20 (EBirdBrowser.img_srcs pg) ∧ occurs_in g src)
            ∨ (∃ href, Some href ∈ take 50 (EBirdBrowser.link_hrefs pg)
                       ∧ Str.contains "macaulaylibrary.org/asset" href = true
                       ∧ occurs_in g href)
            ∨ occurs_in g (EBirdBrowser.page_content pg))
         (EBirdBrowser.collect pg).
Proof.
  assert (∀ r, Forall (λ g, occurs_in g (EBirdBrowser.page_content pg))
                 (EBirdBrowser.pattern_matches r pg)) as Hpattern.
  { intros r. apply Forall_forall. intros g. apply findall_occurs. }
  rewrite browser_collect_eq. repeat apply Forall_app_2;
    try (eapply Forall_impl; [apply Hpattern|]; intros g Hg; by do 2 right).
  - apply Forall_forall. intros g. unfold EBirdBrowser.image_matches.
    intros ([src|] & Hg & Hsrc)%list_elem_of_bind; [|by apply elem_of_nil in Hg].
    left. exists src. split; [done|].
    destruct (py_truthy _); [by eapply findall_occurs | by apply elem_of_nil in Hg].
  - apply Forall_forall. intros g. unfold EBirdBrowser.link_matches.
    intros ([href|] & Hg & Hhref)%list_elem_of_bind; [|by apply elem_of_nil in Hg].
    right. left. exists href. split; [done|].
    destruct (py_truthy _); [|by apply elem_of_nil in Hg].
    destruct (Str.contains _ href) eqn:Hcontains; [|by apply elem_of_nil in Hg].
    split; [done | by apply (findall_occurs EBirdBrowser.re_asset)].
Qed.

(** X4.  Whatever the outcome of the fetch, each eBird script returns a list
    that is not empty, has at most 12 entries, has no duplicates and holds
    only strings of digits of length 8 or more. *)
Theorem ebird_output_invariants
    (fetchedS : result EBirdStatic.page) (fetchedB : result EBirdBrowser.page) :
  let outS := EBirdStatic.scrape_ebird_photos fetchedS in
  let outB := EBirdBrowser.scrape_ebird_photos fetchedB in
  (outS ≠ [] ∧ (length outS ≤ 12)%nat ∧ NoDup outS
   ∧ Forall (λ a, digits_only a ∧ (8 ≤ String.length a)%nat) outS)
  ∧ (outB ≠ [] ∧ (length outB ≤ 12)%nat ∧ NoDup outB
     ∧ Forall (λ a, digits_only a ∧ (8 ≤ String.length a)%nat) outB).
Proof.
  assert (Hfallback :
    EBird.get_fallback_assets ≠ [] ∧ (length EBird.get_fallback_assets ≤ 12)%nat
    ∧ NoDup EBird.get_fallback_assets
    ∧ Forall (λ a, digits_only a ∧ (8 ≤ String.length a)%nat) EBird.get_fallback_assets).
  { split; [done|]. split; [simpl; lia|]. split.
    - vm_compute. repeat constructor; set_solver.
    - repeat constructor; simpl; lia. }
  assert (Hlaw : ∀ matches out,
    Forall digits_only matches →
    out = match EBird.first_occurrences (filter EBird.long_enough matches) with
          | [] => EBird.get_fallback_assets
          | found => take 12 found
          end →
    out ≠ [] ∧ (length out ≤ 12)%nat ∧ NoDup out
    ∧ Forall (λ a, digits_only a ∧ (8 ≤ String.length a)%nat) out).
  { intros matches out Hdigits ->.
    pose proof (NoDup_first_occurrences (filter EBird.long_enough matches)) as Hnodup.
    assert (Forall (λ a, digits_only a ∧ (8 ≤ String.length a)%nat)
              (EBird.first_occurrences (filter EBird.long_enough matches))) as Hall.
    { apply Forall_forall. intros a.
      rewrite elem_of_first_occurrences, list_elem_of_filter. intros [Ha Hin].
      rewrite Forall_forall in Hdigits. split; [by apply Hdigits|].
      apply Is_true_eq_true in Ha. unfold EBird.long_enough in Ha.
      by apply Nat.leb_le in Ha. }
    destruct (EBird.first_occurrences _) as [|a found]; [exact Hfallback|].
    split; [done|]. split; [rewrite length_take; lia|]. split.
    - exact (sublist_NoDup _ _ Hnodup (sublist_take _ 12)).
    - by apply Forall_take. }
  split.
  - destruct fetchedS as [pg|e]; [|exact Hfallback].
    apply (Hlaw (EBirdStatic.collect pg));
      [apply static_collect_digits | apply static_scrape_eq].
  - destruct fetchedB as [pg|e]; [|exact Hfallback].
    apply (Hlaw (EBirdBrowser.collect pg));
      [apply browser_collect_digits | apply browser_scrape_eq].
Qed.

Lemma take_all_first_occurrences (matches : list string) :
  (length (EBird.first_occurrences (filter EBird.long_enough matches)) ≤ 12)%nat →
  ∀ a, a ∈ matches → EBird.long_enough a = true →
    a ∈ match EBird.first_occurrences (filter EBird.long_enough matches) with
        | [] => EBird.get_fallback_assets
        | found => take 12 found
        end.
Proof.
  intros Hlen a Hin Hlong.
  assert (a ∈ EBird.first_occurrences (filter EBird.long_enough matches)) as Ha.
  { rewrite elem_of_first_occurrences, list_elem_of_filter.
    split; [by apply Is_true_true | done]. }
  destruct (EBird.first_occurrences _) as [|b found]; [by apply elem_of_nil in Ha|].
  by rewrite take_ge.
Qed.

Lemma elem_of_scrape_law (matches : list string) a :
  a ∈ match EBird.first_occurrences (filter EBird.long_enough matches) with
      | [] => EBird.get_fallback_assets
      | found => take 12 found
      end →
  a ∈ EBird.get_fallback_assets
  ∨ (a ∈ matches ∧ EBird.long_enough a = true
     ∧ EBird.first_occurrences (filter EBird.long_enough matches) ≠ []).
Proof.
  destruct (EBird.first_occurrences _) as [|b found] eqn:Hfound; [by left|].
  intros Ha. pose proof (elem_of_sublist _ _ _ Ha (sublist_take (b :: found) 12)) as Hb.
  clear Ha. right. rewrite <- Hfound in Hb.
  rename Hb into Ha.
  apply elem_of_first_occurrences, list_elem_of_filter in Ha as [Hlong Hin].
  split; [done|]. split; [by apply Is_true_true | done].
Qed.

(** X5.  When a fetched page has at most 12 distinct long enough matches,
    each eBird script returns every one of them; and an identifier that a
    script returns is either one of the fallback identifiers or a long enough
    match of the page. *)
Theorem ebird_returns_matches_of_page
    (pgS : EBirdStatic.page) (pgB : EBirdBrowser.page) :
  ((length (EBirdStatic.first_occurrences_long pgS) ≤ 12)%nat →
   ∀ a, a ∈ EBirdStatic.collect pgS → EBird.long_enough a = true →
     a ∈ EBirdStatic.scrape_ebird_photos (Ok pgS))
  ∧ ((length (EBirdBrowser.first_occurrences_long pgB) ≤ 12)%nat →
     ∀ a, a ∈ EBirdBrowser.collect pgB →
       a ∈ EBirdBrowser.scrape_ebird_photos (Ok pgB))
  ∧ (∀ a, a ∈ EBirdStatic.scrape_ebird_photos (Ok pgS) →
       a ∈ EBird.get_fallback_assets ∨ a ∈ EBirdStatic.collect pgS)
  ∧ (∀ a, a ∈ EBirdBrowser.scrape_ebird_photos (Ok pgB) →
       a ∈ EBird.get_fallback_assets ∨ a ∈ EBirdBrowser.collect pgB).
Proof.
  split; [|split; [|split]].
  - intros Hlen a Hin Hlong. rewrite static_scrape_eq.
    by apply take_all_first_occurrences.
  - intros Hlen a Hin. rewrite browser_scrape_eq.
    apply take_all_first_occurrences; [done..|].
    pose proof (browser_collect_sized pgB) as Hall. rewrite Forall_forall in Hall.
    by eapply digits_between_long, Hall.
  - intros a. rewrite static_scrape_eq.
    intros [?|(? & _)]%elem_of_scrape_law; [by left | by right].
  - intros a. rewrite browser_scrape_eq.
    intros [?|(? & _)]%elem_of_scrape_law; [by left | by right].
Qed.

Lemma ebird_returns_matches_of_page_witness :
  "629848933" ∈ EBirdStatic.scrape_ebird_photos (Ok Samples.catalog_static)
  ∧ "22222222" ∈ EBirdBrowser.scrape_ebird_photos (Ok Samples.linked_image)
  ∧ ("629849023" ∈ EBird.get_fallback_assets
     ∨ "629849023" ∈ EBirdStatic.collect Samples.catalog_static)
  ∧ ("11111111" ∈ EBird.get_fallback_assets
     ∨ "11111111" ∈ EBirdBrowser.collect Samples.linked_image).
Proof.
  destruct (ebird_returns_matches_of_page Samples.catalog_static Samples.linked_image)
    as (HS & HB & HS' & HB').
  split; [|split; [|split]].
  - apply HS; [vm_compute; lia | | reflexivity].
    vm_compute. do 6 right. left.
  - apply HB; [vm_compute; lia|].
    vm_compute. right. left.
  - apply HS'. vm_compute. left.
  - apply HB'. vm_compute. left.
Defined.

Lemma unique_loop_zero (l : list string) :
  EBird.unique_loop 0 l [] ∅ =
  take 1 (EBird.first_occurrences (filter EBird.long_enough l)).
Proof.
  induction l as [|a l IH]; [done|].
  rewrite unique_loop_cons.
  rewrite bool_decide_eq_true_2 by apply not_elem_of_empty.
  destruct (EBird.long_enough a) eqn:Hlong.
  - rewrite filter_cons_True by by apply Is_true_true. simpl. by rewrite take_0.
  - rewrite filter_cons_False by by apply Is_true_false. exact IH.
Qed.

(** X6.  The deduplication loop returns the long enough strings of its
    input, each where it first occurs, in the order of the input, up to its
    bound; a bound of 0 still lets one string through, because the bound is
    tested after the append. *)
Theorem dedup_loop_keeps_first_occurrences (cap : nat) (asset_numbers : list string) :
  let unique_assets := EBird.unique_loop cap asset_numbers [] ∅ in
  unique_assets =
    take (Nat.max cap 1)
         (EBird.first_occurrences (filter EBird.long_enough asset_numbers))
  ∧ NoDup unique_assets
  ∧ unique_assets `sublist_of` asset_numbers.
Proof.
  assert (EBird.unique_loop cap asset_numbers [] ∅ =
          take (Nat.max cap 1)
            (EBird.first_occurrences (filter EBird.long_enough asset_numbers))) as ->.
  { destruct cap as [|cap]; [apply unique_loop_zero|].
    rewrite Nat.max_l by lia. apply unique_loop_spec. lia. }
  split; [done|]. split.
  - eapply sublist_NoDup; [apply NoDup_first_occurrences | apply sublist_take].
  - etrans; [apply sublist_take|].
    etrans; [apply first_occurrences_sublist | apply sublist_filter].
Qed.

(** X7.  The browser script reads only the first 20 images and the first 50
    anchors of the DOM: two pages that agree on those and on the page content
    give the same result. *)
Theorem browser_reads_first_20_images_50_links (pg1 pg2 : EBirdBrowser.page) :
  take 20 (EBirdBrowser.img_srcs pg1) = take 20 (EBirdBrowser.img_srcs pg2) →
  take 50 (EBirdBrowser.link_hrefs pg1) = take 50 (EBirdBrowser.link_hrefs pg2) →
  EBirdBrowser.page_content pg1 = EBirdBrowser.page_content pg2 →
  EBirdBrowser.scrape_ebird_photos (Ok pg1) = EBirdBrowser.scrape_ebird_photos (Ok pg2).
Proof.
  intros Himg Hlink Hcontent.
  assert (EBirdBrowser.collect pg1 = EBirdBrowser.collect pg2) as Hcollect.
  { rewrite !browser_collect_eq.
    unfold EBirdBrowser.image_matches, EBirdBrowser.link_matches,
      EBirdBrowser.pattern_matches.
    by rewrite Himg, Hlink, Hcontent. }
  unfold EBirdBrowser.scrape_ebird_photos. by rewrite Hcollect.
Qed.

Lemma browser_reads_first_20_images_50_links_witness :
  EBirdBrowser.scrape_ebird_photos (Ok MoreSamples.gallery_21st)
  = EBirdBrowser.scrape_ebird_photos (Ok MoreSamples.gallery).
Proof.
  apply browser_reads_first_20_images_50_links; reflexivity.
Defined.

Example gallery_21st_image_is_not_read :
  EBirdBrowser.scrape_ebird_photos (Ok MoreSamples.gallery_21st) = [ "44444444" ].
Proof. vm_compute. reflexivity. Qed.

(** ** The iNaturalist scraper, further properties *)

Lemma records_of_cons obs results :
  records_of (obs :: results) =
  match INat.normalize_observation obs with
  | Ok (Some observation) => observation :: records_of results
  | _ => records_of results
  end.
Proof.
  unfold records_of. simpl.
  by destruct (INat.normalize_observation obs) as [[o|]|e].
Qed.

Lemma stop_count_test per_page (n : nat) :
  (1 ≤ n)%nat → (per_page <=? Z.of_nat n) = bool_decide (stop_count per_page ≤ n)%nat.
Proof.
  intros Hn. unfold stop_count.
  destruct (Z.leb_spec per_page (Z.of_nat n)).
  - rewrite bool_decide_eq_true_2; [done | lia].
  - rewrite bool_decide_eq_false_2; [done | lia].
Qed.

(** The loop over a prefix of the results that raises no exception. *)
Lemma process_results_prefix per_page rs1 rs2 acc :
  Forall no_exception rs1 →
  (length acc < stop_count per_page)%nat →
  INat.process_results per_page (rs1 ++ rs2) acc =
  if decide (stop_count per_page ≤ length acc + length (records_of rs1))%nat
  then Ok (take (stop_count per_page) (acc ++ records_of rs1))
  else INat.process_results per_page rs2 (acc ++ records_of rs1).
Proof.
  intros Hrs1. revert acc.
  induction Hrs1 as [|obs rs1 [r Hr] _ IH]; intros acc Hacc.
  - simpl. rewrite decide_False by lia. by rewrite app_nil_r.
  - rewrite <- app_comm_cons, process_results_cons, records_of_cons, Hr. simpl.
    destruct r as [o|]; [|by apply IH].
    rewrite stop_count_test by (rewrite length_app; simpl; lia).
    rewrite length_app. simpl length.
    case_bool_decide as Hfull.
    + rewrite decide_True by lia. f_equal. symmetry. apply take_snoc_full. lia.
    + rewrite IH by (rewrite length_app; simpl; lia).
      rewrite length_app, <- (assoc_L (++)). simpl.
      destruct (decide (stop_count per_page ≤ length acc + S (length (records_of rs1)))%nat).
      * by rewrite decide_True by lia.
      * by rewrite decide_False by lia.
Qed.

Lemma stop_count_pos per_page : (0 < stop_count per_page)%nat.
Proof. unfold stop_count. lia. Qed.

Lemma try_scrape_prefix api taxon_id quality_grade per_page kwargs fields rs1 rs2 :
  api (INat.build_params taxon_id quality_grade per_page kwargs) = Ok (PDict fields) →
  dict_lookup "results" fields = Some (PList (rs1 ++ rs2)) →
  Forall no_exception rs1 →
  INat.try_scrape api taxon_id quality_grade per_page kwargs =
  if decide (stop_count per_page ≤ length (records_of rs1))%nat
  then Ok (take (stop_count per_page) (records_of rs1))
  else INat.process_results per_page rs2 (records_of rs1).
Proof.
  intros Hapi Hresults Hrs1.
  rewrite (try_scrape_results _ _ _ _ _ _ _ Hapi Hresults).
  apply (process_results_prefix per_page rs1 rs2 []); [done|].
  apply stop_count_pos.
Qed.

(** X8.  When the API answers with a list of results and no exception is
    raised up to the point where the loop ends, the scraper returns the
    records of the results that yield one, in the order of the results, cut
    at max(1, per_page) records; the results after that point are not
    examined. *)
Theorem inat_returns_first_records
    (api : list (string * pyval) → result pyval) (taxon_id quality_grade : string)
    (per_page : Z) (kwargs : list (string * pyval))
    (fields : list (string * pyval)) (examined rest : list pyval) :
  api (INat.build_params taxon_id quality_grade per_page kwargs) = Ok (PDict fields) →
  dict_lookup "results" fields = Some (PList (examined ++ rest)) →
  Forall no_exception examined →
  rest = [] ∨ (stop_count per_page ≤ length (records_of examined))%nat →
  INat.scrape_inat_observations api taxon_id quality_grade per_page kwargs
  = take (stop_count per_page) (records_of examined).
Proof.
  intros Hapi Hresults Hexamined Hrest. unfold INat.scrape_inat_observations.
  rewrite (try_scrape_prefix _ _ _ _ _ _ _ _ Hapi Hresults Hexamined).
  destruct (decide _) as [Hfull|Hroom]; [done|].
  destruct Hrest as [-> | ?]; [|lia].
  simpl. rewrite take_ge; [done | lia].
Qed.

Lemma inat_returns_first_records_witness :
  INat.scrape_inat_observations
    (Samples.stub_api [ Samples.no_photo; Samples.cc0_observation;
                        Samples.unnamed_observer; MoreSamples.null_taxon ])
    "551307" "" 2 []
  = take 2 (records_of [ Samples.no_photo; Samples.cc0_observation;
                         Samples.unnamed_observer ])
  ∧ length (records_of [ Samples.no_photo; Samples.cc0_observation;
                         Samples.unnamed_observer ]) = 2%nat.
Proof.
  split; [|reflexivity].
  eapply (inat_returns_first_records _ "551307" "" 2 [] _
            [ Samples.no_photo; Samples.cc0_observation; Samples.unnamed_observer ]
            [ MoreSamples.null_taxon ]).
  - reflexivity.
  - reflexivity.
  - repeat constructor; eexists; reflexivity.
  - right. vm_compute. lia.
Defined.

(** X9.  When a result raises an exception before the loop has gathered
    max(1, per_page) records, the scraper returns the placeholder list: the
    records gathered so far are dropped. *)
Theorem inat_exception_drops_gathered_records
    (api : list (string * pyval) → result pyval) (taxon_id quality_grade : string)
    (per_page : Z) (kwargs : list (string * pyval))
    (fields : list (string * pyval)) (before after : list pyval) (obs : pyval) (e : exn) :
  api (INat.build_params taxon_id quality_grade per_page kwargs) = Ok (PDict fields) →
  dict_lookup "results" fields = Some (PList (before ++ obs :: after)) →
  Forall no_exception before →
  (length (records_of before) < stop_count per_page)%nat →
  INat.normalize_observation obs = Raise e →
  INat.scrape_inat_observations api taxon_id quality_grade per_page kwargs
  = INat.get_fallback_observations.
Proof.
  intros Hapi Hresults Hbefore Hroom Hobs. unfold INat.scrape_inat_observations.
  rewrite (try_scrape_prefix _ _ _ _ _ _ _ _ Hapi Hresults Hbefore).
  rewrite decide_False by lia.
  by rewrite process_results_cons, Hobs.
Qed.

Lemma inat_exception_drops_gathered_records_witness :
  INat.scrape_inat_observations
    (Samples.stub_api [ Samples.cc0_observation; MoreSamples.null_taxon ]) "" "" 30 []
  = INat.get_fallback_observations
  ∧ records_of [ Samples.cc0_observation ] ≠ [].
Proof.
  split; [|discriminate].
  eapply (inat_exception_drops_gathered_records _ "" "" 30 [] _
            [ Samples.cc0_observation ] [] MoreSamples.null_taxon).
  - reflexivity.
  - reflexivity.
  - repeat constructor. eexists. reflexivity.
  - vm_compute. lia.
  - reflexivity.
Defined.

(** X10.  When the API answers with results that are all skipped (no photo
    or no license), or with no result at all, the scraper returns the empty
    list and the file written has count 0: the placeholder is substituted on
    exceptions only. *)
Theorem inat_no_record_gives_empty_list
    (api : list (string * pyval) → result pyval) (now taxon_id quality_grade : string)
    (per_page : Z) (kwargs : list (string * pyval)) (fs : gmap string pyval)
    (fields : list (string * pyval)) (results : list pyval) :
  api (INat.build_params taxon_id quality_grade per_page kwargs) = Ok (PDict fields) →
  dict_lookup "results" fields = Some (PList results) →
  Forall (λ obs, INat.normalize_observation obs = Ok None) results →
  INat.scrape_inat_observations api taxon_id quality_grade per_page kwargs = []
  ∧ ∃ doc, INat.main api now taxon_id quality_grade per_page kwargs fs
             !! "inatslide/observations.json" = Some (PDict doc)
           ∧ dict_lookup "count" doc = Some (PInt 0)
           ∧ dict_lookup "observations" doc = Some (PList []).
Proof.
  intros Hapi Hresults Hskipped.
  assert (INat.scrape_inat_observations api taxon_id quality_grade per_page kwargs = [])
    as Hout.
  { unfold INat.scrape_inat_observations.
    rewrite (try_scrape_results _ _ _ _ _ _ _ Hapi Hresults).
    clear Hapi Hresults.
    induction Hskipped as [|obs results Hobs _ IH]; [done|].
    by rewrite process_results_cons, Hobs. }
  split; [done|]. unfold INat.main, INat.save_observations.
  rewrite Hout, lookup_insert_eq. by eexists.
Qed.

Lemma inat_no_record_gives_empty_list_witness :
  INat.scrape_inat_observations
    (Samples.stub_api [ Samples.no_photo; Samples.no_license ]) "" "" 30 [] = [].
Proof.
  eapply (inat_no_record_gives_empty_list _ "2025-12-15T00:00:00" "" "" 30 [] ∅).
  - reflexivity.
  - reflexivity.
  - repeat constructor.
Defined.

Lemma try_scrape_from api taxon_id quality_grade per_page kwargs out o :
  INat.try_scrape api taxon_id quality_grade per_page kwargs = Ok out →
  o ∈ out → ∃ obs, INat.normalize_observation obs = Ok (Some o).
Proof.
  unfold INat.try_scrape. intros H Ho.
  apply bind_Ok in H as (data & _ & H).
  apply bind_Ok in H as (results & _ & H).
  apply bind_Ok in H as (total_results & _ & H).
  apply bind_Ok in H as (n & _ & H).
  apply bind_Ok in H as (items & _ & H).
  destruct (process_results_from _ _ _ _ H o Ho) as [Hin|(obs & _ & Hobs)].
  - by apply elem_of_nil in Hin.
  - by exists obs.
Qed.

Lemma py_lower_string v s : py_lower v = Ok s → ∃ code, v = PStr code.
Proof. destruct v; try discriminate. eauto. Qed.

Lemma normalized_is_record obs o :
  INat.normalize_observation obs = Ok (Some o) → is_record o.
Proof.
  intros H%normalize_Some.
  destruct H as [photos photo taxon common_name scientific_name user
      observer_login observer_name place_guess created_at observed_on
      license_code license_name license_url url image_url id quality_grade
      Hphotos Hphotos_true Hphoto Htaxon Hcommon Hscientific Huser Hlogin Hname
      Hplace Hcreated Hobserved Hcode Hcode_true Hlicense_name Hlicense_url
      Hurl Himage Hid Hquality].
  eexists. split; [reflexivity|]. split; [reflexivity|].
  repeat (split; [by eexists|]). split.
  - unfold INat.get_license_name in Hlicense_name.
    apply bind_Ok in Hlicense_name as (key & Hkey & _).
    apply py_lower_string in Hkey as [code ->].
    exists code. split; [done|]. by intros ->.
  - eexists. split; [reflexivity|]. by destruct (py_truthy place_guess) eqn:Hp.
Qed.

(** X11.  Whatever the API answers and whatever the arguments, every entry
    of the returned list is a record with the thirteen keys in their fixed
    order, in which image_url, license_name, license_url and obs_url are
    strings, license_code is a string that is not empty and location is never
    empty or null. *)
Theorem inat_output_holds_records
    (api : list (string * pyval) → result pyval) (taxon_id quality_grade : string)
    (per_page : Z) (kwargs : list (string * pyval)) :
  Forall is_record
    (INat.scrape_inat_observations api taxon_id quality_grade per_page kwargs).
Proof.
  unfold INat.scrape_inat_observations.
  destruct (INat.try_scrape _ _ _ _ _) as [out|e] eqn:Hout.
  - apply Forall_forall. intros o Ho.
    destruct (try_scrape_from _ _ _ _ _ _ _ Hout Ho) as [obs Hobs].
    by eapply normalized_is_record.
  - apply Forall_singleton.
    eexists. split; [reflexivity|]. split; [reflexivity|].
    repeat (split; [by eexists|]). eexists. by split.
Qed.

Lemma upper_lower_char c : Str.upper_char (Str.lower_char c) = Str.upper_char c.
Proof. by destruct c as [[] [] [] [] [] [] [] []]. Qed.

Lemma upper_lower s : Str.upper (Str.lower s) = Str.upper s.
Proof.
  induction s as [|c s IH]; [done|].
  unfold Str.upper, Str.lower in *. simpl. by rewrite upper_lower_char, IH.
Qed.

Lemma get_license_name_string s :
  INat.get_license_name (PStr s) =
  Ok (default (Str.upper s) (dict_lookup (Str.lower s) INat.licenses)).
Proof. reflexivity. Qed.

Lemma get_license_url_string s :
  INat.get_license_url (PStr s) =
  if String.eqb (Str.lower s) "cc0"
  then Ok "https://creativecommons.org/publicdomain/zero/1.0/"
  else Ok ("https://creativecommons.org/licenses/"
           +:+ Str.replace "cc-" "" (Str.lower s) +:+ "/4.0/").
Proof.
  unfold INat.get_license_url. simpl. by destruct (String.eqb _ _).
Qed.

(** X12.  The license lookups ignore the case of the code: two codes of the
    ASCII range that agree up to case get the same display name and the same
    deed URL.  Such a code that is not in the table gets its upper-cased form
    as display name, and a code that is not a string raises an exception in
    both lookups.  (Beyond the ASCII range the display name of a code outside
    the table can depend on its case: the upper case of the sharp s is SS,
    that of the capital sharp s is itself.) *)
Theorem license_lookups_ignore_case (s t : string) :
  ascii_only s → ascii_only t →
  (Str.lower s = Str.lower t →
   INat.get_license_name (PStr s) = INat.get_license_name (PStr t)
   ∧ INat.get_license_url (PStr s) = INat.get_license_url (PStr t))
  ∧ (dict_lookup (Str.lower s) INat.licenses = None →
     INat.get_license_name (PStr s) = Ok (Str.upper s))
  ∧ (∀ v, (∀ code, v ≠ PStr code) →
       INat.get_license_name v = Raise AttributeError
       ∧ INat.get_license_url v = Raise AttributeError).
Proof.
  intros _ _. split; [|split].
  - intros Hst. rewrite !get_license_name_string, !get_license_url_string.
    by rewrite Hst, <- (upper_lower s), <- (upper_lower t), Hst.
  - intros Hnone. by rewrite get_license_name_string, Hnone.
  - intros v Hv. destruct v as [| | |code| |]; try done. by destruct (Hv code).
Qed.

Lemma license_lookups_ignore_case_witness :
  INat.get_license_name (PStr "CC-BY-NC") = INat.get_license_name (PStr "cc-by-nc")
  ∧ INat.get_license_url (PStr "CC-BY-NC") = INat.get_license_url (PStr "cc-by-nc")
  ∧ INat.get_license_name (PStr "gfdl") = Ok "GFDL"
  ∧ INat.get_license_name (PInt 4) = Raise AttributeError
  ∧ INat.get_license_url (PInt 4) = Raise AttributeError.
Proof.
  destruct (license_lookups_ignore_case "CC-BY-NC" "cc-by-nc" eq_refl eq_refl)
    as (Hcase & _).
  destruct (license_lookups_ignore_case "gfdl" "" eq_refl eq_refl)
    as (_ & Hunknown & Hother).
  destruct (Hcase eq_refl) as [Hname Hurl].
  split; [exact Hname|]. split; [exact Hurl|]. split; [exact (Hunknown eq_refl)|].
  apply (Hother (PInt 4)). intros code. discriminate.
Defined.

Lemma normalized_obs_url obs o :
  INat.normalize_observation obs = Ok (Some o) →
  ∃ id,
    py_get obs "id" PNone = Ok id
    ∧ py_get o "id" PNone = Ok id
    ∧ py_get o "obs_url" PNone =
        Ok (PStr ("https://www.inaturalist.org/observations/" +:+ py_str id)).
Proof. intros H%normalize_Some. destruct H. by eexists. Qed.

(** X13.  The obs_url of a record is the observations page of the id of the
    raw result; a result without id gets the page named None; and two
    results with different integer ids get different URLs. *)
Theorem obs_url_follows_id (obs o : pyval) :
  INat.normalize_observation obs = Ok (Some o) →
  ∃ id,
    py_get obs "id" PNone = Ok id
    ∧ py_get o "id" PNone = Ok id
    ∧ py_get o "obs_url" PNone =
        Ok (PStr ("https://www.inaturalist.org/observations/" +:+ py_str id))
    ∧ (id = PNone →
       py_get o "obs_url" PNone = Ok (PStr "https://www.inaturalist.org/observations/None"))
    ∧ (∀ obs' o' n n',
         INat.normalize_observation obs' = Ok (Some o') →
         id = PInt n → py_get obs' "id" PNone = Ok (PInt n') → n ≠ n' →
         py_get o "obs_url" PNone ≠ py_get o' "obs_url" PNone).
Proof.
  intros (id & Hid & Hoid & Hurl)%normalized_obs_url.
  exists id. split; [done|]. split; [done|]. split; [done|]. split.
  - intros ->. exact Hurl.
  - intros obs' o' n n' (id' & Hid' & _ & Hurl')%normalized_obs_url -> Hn' Hne.
    assert (id' = PInt n') as -> by congruence.
    rewrite Hurl, Hurl'. simpl.
    intros [= Heq]. apply Hne.
    apply (inj (String.append _)) in Heq. by apply (inj pretty) in Heq.
Qed.

Lemma obs_url_follows_id_witness :
  ∃ o o',
    INat.normalize_observation Samples.cc0_observation = Ok (Some o)
    ∧ INat.normalize_observation Samples.unnamed_observer = Ok (Some o')
    ∧ py_get o "obs_url" PNone = Ok (PStr "https://www.inaturalist.org/observations/8")
    ∧ py_get o "obs_url" PNone ≠ py_get o' "obs_url" PNone.
Proof.
  assert (∃ o, INat.normalize_observation Samples.cc0_observation = Ok (Some o))
    as [o Ho] by (eexists; reflexivity).
  assert (∃ o', INat.normalize_observation Samples.unnamed_observer = Ok (Some o'))
    as [o' Ho'] by (eexists; reflexivity).
  destruct (obs_url_follows_id _ o Ho) as (id & Hid & _ & Hurl & _ & Hdiffer).
  injection Hid as <-.
  exists o, o'. split; [exact Ho|]. split; [exact Ho'|]. split; [exact Hurl|].
  apply (Hdiffer Samples.unnamed_observer o' 8 7 Ho' eq_refl eq_refl). discriminate.
Defined.

(** ** Dictionaries *)

Lemma dict_lookup_set k k' v d :
  dict_lookup k' (dict_set k v d) =
  if String.eqb k' k then Some v else dict_lookup k' d.
Proof.
  induction d as [|[k0 v0] d IH]; simpl; [done|].
  destruct (String.eqb_spec k k0) as [->|Hk]; simpl.
  - by destruct (String.eqb k' k0).
  - rewrite IH. destruct (String.eqb_spec k' k0) as [->|Hk']; [|done].
    by rewrite (proj2 (String.eqb_neq k0 k)).
Qed.

Lemma dict_set_keys k v d :
  (dict_set k v d).*1 = if bool_decide (k ∈ d.*1) then d.*1 else d.*1 ++ [k].
Proof.
  induction d as [|[k0 v0] d IH]; [done|].
  cbn [dict_set]. rewrite (fmap_cons fst (k0, v0) d). cbn [fst].
  destruct (String.eqb_spec k k0) as [->|Hk].
  - rewrite fmap_cons. cbn [fst]. by rewrite bool_decide_eq_true_2 by left.
  - rewrite fmap_cons, IH. cbn [fst]. destruct (decide (k ∈ d.*1)) as [Hin|Hin].
    + rewrite (bool_decide_eq_true_2 _ Hin).
      rewrite bool_decide_eq_true_2; [done | by right].
    + rewrite (bool_decide_eq_false_2 _ Hin).
      rewrite bool_decide_eq_false_2; [done|].
      rewrite elem_of_cons. naive_solver.
Qed.

Lemma dict_set_NoDup k v d : NoDup d.*1 → NoDup (dict_set k v d).*1.
Proof.
  intros Hd. rewrite dict_set_keys. case_bool_decide as Hin; [done|].
  apply NoDup_app. split; [done|]. split; [|apply NoDup_singleton].
  intros k' Hk' ->%list_elem_of_singleton. done.
Qed.

Lemma dict_lookup_app {A} k (d1 d2 : list (string * A)) :
  dict_lookup k (d1 ++ d2) =
  match dict_lookup k d1 with Some v => Some v | None => dict_lookup k d2 end.
Proof.
  induction d1 as [|[k0 v0] d1 IH]; simpl; [done|].
  by destruct (String.eqb k k0).
Qed.

(** [update] gives every key of the other dictionary its last value there
    and leaves the other keys as they are. *)
Lemma dict_lookup_update k d other :
  dict_lookup k (dict_update d other) =
  match dict_lookup k (reverse other) with
  | Some v => Some v
  | None => dict_lookup k d
  end.
Proof.
  unfold dict_update. revert d.
  induction other as [|[k0 v0] other IH]; intros d; simpl; [done|].
  rewrite IH, reverse_cons, dict_lookup_app, dict_lookup_set. simpl.
  destruct (dict_lookup k (reverse other)); [done|].
  by destruct (String.eqb k k0).
Qed.

Lemma dict_update_NoDup d other : NoDup d.*1 → NoDup (dict_update d other).*1.
Proof.
  unfold dict_update. revert d.
  induction other as [|[k0 v0] other IH]; intros d Hd; simpl; [done|].
  by apply IH, dict_set_NoDup.
Qed.

Lemma dict_lookup_reverse_None {A} k (d : list (string * A)) :
  dict_lookup k d = None → dict_lookup k (reverse d) = None.
Proof.
  induction d as [|[k0 v0] d IH]; simpl; [done|].
  destruct (String.eqb k k0) eqn:Hk; [done|]. intros Hd.
  rewrite reverse_cons, dict_lookup_app, (IH Hd). simpl. by rewrite Hk.
Qed.

(** When the call is made, the additional parameters hold none of the names
    of the parameters of the function. *)
Lemma no_keyword_repeated kwargs k :
  INatCli.repeats_keyword kwargs = false →
  k ∈ INatCli.keyword_names →
  dict_lookup k (reverse kwargs) = None.
Proof.
  unfold INatCli.repeats_keyword. intros Hrep Hk.
  apply dict_lookup_reverse_None.
  destruct (dict_lookup k kwargs) as [v|] eqn:Hlook; [|done].
  assert (existsb (λ k, bool_decide (is_Some (dict_lookup k kwargs)))
            INatCli.keyword_names = true) as Htrue; [|congruence].
  apply existsb_exists. exists k. split.
  - by apply list_elem_of_In.
  - apply bool_decide_eq_true_2. by rewrite Hlook.
Qed.

(** X14.  The request parameters, for additional parameters of the command
    line that the call accepts, that is, that are named neither taxon_id nor
    quality_grade nor per_page (with one of these names the call raises
    TypeError and no request is made).  An additional parameter overrides the
    built-in parameter of the same name (order, order_by, photos,
    photo_licensed, captive, verifiable) and leaves the other parameters as
    they are; the per_page sent is min(per_page, 200), and taxon_id and
    quality_grade are sent as given and only when they are not empty; no
    parameter is sent twice. *)
Theorem request_parameters
    (taxon_id quality_grade : string) (per_page : Z) (kwargs : list (string * pyval)) :
  INatCli.repeats_keyword kwargs = false →
  let params := INat.build_params taxon_id quality_grade per_page kwargs in
  (∀ k, dict_lookup k params =
        match dict_lookup k (reverse kwargs) with
        | Some v => Some v
        | None => dict_lookup k (INat.build_params taxon_id quality_grade per_page [])
        end)
  ∧ dict_lookup "per_page" params = Some (PInt (Z.min per_page 200))
  ∧ dict_lookup "taxon_id" params
    = (if String.eqb taxon_id "" then None else Some (PStr taxon_id))
  ∧ dict_lookup "quality_grade" params
    = (if String.eqb quality_grade "" then None else Some (PStr quality_grade))
  ∧ NoDup params.*1.
Proof.
  intros Hrep params.
  assert (∀ k, dict_lookup k params =
               match dict_lookup k (reverse kwargs) with
               | Some v => Some v
               | None => dict_lookup k (INat.build_params taxon_id quality_grade per_page [])
               end) as Hlook.
  { intros k. unfold params, INat.build_params. by rewrite !dict_lookup_update. }
  split; [exact Hlook|]. split; [|split; [|split]].
  - rewrite Hlook, (no_keyword_repeated kwargs "per_page" Hrep) by set_solver.
    unfold INat.build_params. simpl.
    destruct (String.eqb taxon_id ""), (String.eqb quality_grade ""); reflexivity.
  - rewrite Hlook, (no_keyword_repeated kwargs "taxon_id" Hrep) by set_solver.
    unfold INat.build_params. simpl.
    destruct (String.eqb taxon_id ""), (String.eqb quality_grade ""); reflexivity.
  - rewrite Hlook, (no_keyword_repeated kwargs "quality_grade" Hrep) by set_solver.
    unfold INat.build_params. simpl.
    destruct (String.eqb taxon_id ""), (String.eqb quality_grade ""); reflexivity.
  - unfold params, INat.build_params. apply dict_update_NoDup.
    assert (NoDup ["per_page"; "order"; "order_by"; "photos"; "photo_licensed";
                   "captive"; "verifiable"]) as Hbase.
    { vm_compute. repeat constructor; set_solver. }
    destruct (py_truthy (PStr taxon_id)), (py_truthy (PStr quality_grade));
      repeat apply dict_set_NoDup; exact Hbase.
Qed.

Lemma request_parameters_witness :
  let params :=
    INat.build_params "551307" "" 500 [ ("captive", PStr "any"); ("term_id", PStr "17") ] in
  dict_lookup "captive" params = Some (PStr "any")
  ∧ dict_lookup "term_id" params = Some (PStr "17")
  ∧ dict_lookup "order" params = Some (PStr "desc")
  ∧ dict_lookup "per_page" params = Some (PInt 200)
  ∧ dict_lookup "taxon_id" params = Some (PStr "551307")
  ∧ dict_lookup "quality_grade" params = None.
Proof.
  intros params.
  destruct (request_parameters "551307" "" 500
              [ ("captive", PStr "any"); ("term_id", PStr "17") ]
              eq_refl) as (Hlook & Hper_page & Htaxon & Hquality & _).
  split; [exact (Hlook "captive")|]. split; [exact (Hlook "term_id")|].
  split; [exact (Hlook "order")|]. split; [exact Hper_page|].
  split; [exact Htaxon | exact Hquality].
Defined.

(** With one of the names of the function's own parameters among the
    additional parameters no request is made: the script ends at the call. *)
Example additional_per_page_is_refused api now fs :
  INatCli.main [ "--taxon=551307"; "--per_page=5" ] api now fs
  = INatCli.Crashed INatCli.UncaughtTypeError.
Proof. reflexivity. Qed.

(** X15.  Each script writes one file and nothing else: every other path of
    the file system keeps its content, and what is written does not depend
    on what the file held before. *)
Theorem scripts_write_one_file
    (now : string) (fs fs' : gmap string pyval) (path : string)
    (fetchedS : result EBirdStatic.page) (fetchedB : result EBirdBrowser.page)
    (api : list (string * pyval) → result pyval) (taxon_id quality_grade : string)
    (per_page : Z) (kwargs : list (string * pyval)) :
  (path ≠ "assets.json" →
   EBirdStatic.main fetchedS now fs !! path = fs !! path)
  ∧ (path ≠ "birdslide/assets.json" →
     EBirdBrowser.main fetchedB now fs !! path = fs !! path)
  ∧ (path ≠ "inatslide/observations.json" →
     INat.main api now taxon_id quality_grade per_page kwargs fs !! path = fs !! path)
  ∧ EBirdStatic.main fetchedS now fs !! "assets.json"
    = EBirdStatic.main fetchedS now fs' !! "assets.json"
  ∧ EBirdBrowser.main fetchedB now fs !! "birdslide/assets.json"
    = EBirdBrowser.main fetchedB now fs' !! "birdslide/assets.json"
  ∧ INat.main api now taxon_id quality_grade per_page kwargs fs
      !! "inatslide/observations.json"
    = INat.main api now taxon_id quality_grade per_page kwargs fs'
        !! "inatslide/observations.json".
Proof.
  unfold EBirdStatic.main, EBirdBrowser.main, INat.main,
    EBirdStatic.save_assets, EBirdBrowser.save_assets, INat.save_observations.
  repeat split; try (intros Hne; by rewrite lookup_insert_ne);
    by rewrite !lookup_insert_eq.
Qed.

Lemma scripts_write_one_file_witness :
  EBirdStatic.main (Ok Samples.empty_static) "2025-12-15T00:00:00"
    {[ "notes.txt" := PStr "keep" ]} !! "notes.txt" = Some (PStr "keep").
Proof.
  destruct (scripts_write_one_file "2025-12-15T00:00:00"
              {[ "notes.txt" := PStr "keep" ]} ∅ "notes.txt"
              (Ok Samples.empty_static) (Ok Samples.empty_browser)
              Samples.timeout_api "" "" 30 []) as (HS & _).
  rewrite HS by discriminate. apply lookup_singleton_eq.
Defined.

(** ** The command line of the iNaturalist script *)

Lemma prefixes_comparable p q s :
  Str.startswith p s = true → Str.startswith q s = true →
  Str.startswith p q = true ∨ Str.startswith q p = true.
Proof.
  revert q s. induction p as [|a p IH]; intros q s; [by left|].
  destruct q as [|b q]; [by right|].
  destruct s as [|c s]; [done|]. simpl.
  intros [Ha Hp]%andb_true_iff [Hb Hq]%andb_true_iff.
  apply Ascii.eqb_eq in Ha as ->. apply Ascii.eqb_eq in Hb as ->.
  rewrite Ascii.eqb_refl. simpl. by eapply IH.
Qed.

Lemma split1_flag p r :
  Str.existsb (Ascii.eqb "="%char) p = false →
  INatCli.split1 (p +:+ String "="%char r) = (p, Some r).
Proof.
  induction p as [|c p IH]; [done|].
  cbn [Str.existsb]. intros [Hc Hp]%orb_false_iff.
  rewrite str_app_cons. cbn [INatCli.split1]. rewrite Ascii.eqb_sym, Hc.
  by rewrite (IH Hp).
Qed.

(** For the three flags, the value is what follows the flag. *)
Lemma after_equals_flag flag arg :
  flag ∈ [ "--taxon"; "--quality"; "--count" ] →
  Str.startswith (flag +:+ "=") arg = true →
  INatCli.after_equals arg = INatCli.Finished (Str.drop (String.length (flag +:+ "=")) arg).
Proof.
  intros Hflag Harg. apply startswith_split in Harg.
  set (value := Str.drop _ arg) in *. clearbody value. subst arg.
  unfold INatCli.after_equals. rewrite str_app_assoc.
  change ("=" +:+ value) with (String "="%char value).
  rewrite split1_flag; [done|].
  repeat (apply elem_of_cons in Hflag as [->|Hflag]; [done|]).
  by apply elem_of_nil in Hflag.
Qed.

Lemma flags_exclusive p q arg :
  Str.startswith p q = false → Str.startswith q p = false →
  Str.startswith p arg = true → Str.startswith q arg = false.
Proof.
  intros Hpq Hqp Hp. destruct (Str.startswith q arg) eqn:Hq; [|done].
  destruct (prefixes_comparable _ _ _ Hp Hq); congruence.
Qed.

Lemma step_fields st arg st' :
  INatCli.step st arg = INatCli.Finished st' →
  INatCli.taxon_id st' =
    (if Str.startswith "--taxon=" arg then Str.drop 8 arg else INatCli.taxon_id st)
  ∧ INatCli.quality_grade st' =
      (if Str.startswith "--quality=" arg then Str.drop 10 arg
       else INatCli.quality_grade st)
  ∧ (if Str.startswith "--count=" arg
     then INatCli.py_int (Str.drop 8 arg) = Some (INatCli.per_page st')
     else INatCli.per_page st' = INatCli.per_page st).
Proof.
  unfold INatCli.step.
  destruct (Str.startswith "--taxon=" arg) eqn:Htaxon.
  { rewrite (after_equals_flag "--taxon") by (done || set_solver).
    rewrite (flags_exclusive "--taxon=" "--quality=" arg) by done.
    rewrite (flags_exclusive "--taxon=" "--count=" arg) by done.
    by intros [= <-]. }
  destruct (Str.startswith "--quality=" arg) eqn:Hquality.
  { rewrite (after_equals_flag "--quality") by (done || set_solver).
    rewrite (flags_exclusive "--quality=" "--count=" arg) by done.
    by intros [= <-]. }
  destruct (Str.startswith "--count=" arg) eqn:Hcount.
  { rewrite (after_equals_flag "--count") by (done || set_solver).
    change (String.length ("--count" +:+ "=")) with 8%nat.
    destruct (INatCli.py_int (Str.drop 8 arg)) as [n|]; [|done].
    by intros [= <-]. }
  destruct (Str.startswith "--" arg); [|by intros [= <-]].
  destruct (INatCli.split1 (Str.drop 2 arg)) as [key [value|]]; [|done].
  by intros [= <-].
Qed.

Lemma flag_values_cons flag arg argv :
  INatCli.flag_values flag (arg :: argv) =
  if Str.startswith flag arg
  then Str.drop (String.length flag) arg :: INatCli.flag_values flag argv
  else INatCli.flag_values flag argv.
Proof. unfold INatCli.flag_values. simpl. by destruct (Str.startswith flag arg). Qed.

Lemma parse_from_fields argv st0 st :
  INatCli.parse_from st0 argv = INatCli.Finished st →
  INatCli.taxon_id st =
    default (INatCli.taxon_id st0) (last (INatCli.flag_values "--taxon=" argv))
  ∧ INatCli.quality_grade st =
      default (INatCli.quality_grade st0) (last (INatCli.flag_values "--quality=" argv))
  ∧ match last (INatCli.flag_values "--count=" argv) with
    | Some value => INatCli.py_int value = Some (INatCli.per_page st)
    | None => INatCli.per_page st = INatCli.per_page st0
    end.
Proof.
  revert st0. induction argv as [|arg argv IH]; intros st0; cbn [INatCli.parse_from].
  - by intros [= <-].
  - destruct (INatCli.step st0 arg) as [st1|e] eqn:Hstep; [|done].
    intros (Htaxon & Hquality & Hcount)%IH.
    apply step_fields in Hstep as (Htaxon1 & Hquality1 & Hcount1).
    rewrite !flag_values_cons.
    rewrite Htaxon, Hquality, Htaxon1, Hquality1. clear Htaxon Hquality Htaxon1 Hquality1.
    split; [|split].
    + destruct (Str.startswith "--taxon=" arg); [|done].
      rewrite last_cons.
      destruct (last (INatCli.flag_values "--taxon=" argv)); reflexivity.
    + destruct (Str.startswith "--quality=" arg); [|done].
      rewrite last_cons.
      destruct (last (INatCli.flag_values "--quality=" argv)); reflexivity.
    + destruct (Str.startswith "--count=" arg).
      * rewrite last_cons.
        destruct (last (INatCli.flag_values "--count=" argv));
          [exact Hcount | by rewrite Hcount].
      * destruct (last (INatCli.flag_values "--count=" argv));
          [exact Hcount | congruence].
Qed.

(** X16.  When the command line is read without an exception: the taxon
    and the quality grade are the values of the last --taxon= and --quality=
    arguments (empty when there is none), and the count is the integer value
    of the last --count= argument (30 when there is none). *)
Theorem command_line_last_flag_wins (argv : list string) (st : INatCli.args) :
  INatCli.parse argv = INatCli.Finished st →
  INatCli.taxon_id st = default "" (last (INatCli.flag_values "--taxon=" argv))
  ∧ INatCli.quality_grade st = default "" (last (INatCli.flag_values "--quality=" argv))
  ∧ match last (INatCli.flag_values "--count=" argv) with
    | Some value => INatCli.py_int value = Some (INatCli.per_page st)
    | None => INatCli.per_page st = 30
    end.
Proof. apply parse_from_fields. Qed.

Lemma command_line_last_flag_wins_witness :
  ∃ st, INatCli.parse [ "--taxon=1"; "--count=5"; "--taxon=551307"; "verbose";
                        "--count= 2 "; "--term_id=17" ] = INatCli.Finished st
        ∧ INatCli.taxon_id st = "551307"
        ∧ INatCli.quality_grade st = ""
        ∧ INatCli.per_page st = 2.
Proof.
  eexists. split; [reflexivity|].
  destruct (command_line_last_flag_wins
              [ "--taxon=1"; "--count=5"; "--taxon=551307"; "verbose";
                "--count= 2 "; "--term_id=17" ] _ eq_refl) as (Htaxon & Hquality & Hcount).
  split; [exact Htaxon|]. split; [exact Hquality | reflexivity].
Defined.

Lemma parse_from_app st argv1 argv2 :
  INatCli.parse_from st (argv1 ++ argv2) =
  match INatCli.parse_from st argv1 with
  | INatCli.Finished st' => INatCli.parse_from st' argv2
  | INatCli.Crashed e => INatCli.Crashed e
  end.
Proof.
  revert st. induction argv1 as [|arg argv1 IH]; intros st; simpl; [done|].
  by destruct (INatCli.step st arg).
Qed.

Lemma existsb_prefix P p s :
  Str.startswith p s = true → Str.existsb P p = true → Str.existsb P s = true.
Proof.
  revert s. induction p as [|a p IH]; intros s; [done|].
  destruct s as [|c s]; [done|]. simpl.
  intros [Ha Hp]%andb_true_iff. apply Ascii.eqb_eq in Ha as ->.
  intros [->|Hin]%orb_true_iff; [done|].
  rewrite (IH s Hp Hin). by destruct (P c).
Qed.

Lemma existsb_drop P n s :
  Str.existsb P s = false → Str.existsb P (Str.drop n s) = false.
Proof.
  revert s. induction n as [|n IH]; intros s; [by destruct s|].
  destruct s as [|c s]; [done|]. simpl.
  intros [_ Hs]%orb_false_iff. by apply IH.
Qed.

Lemma split1_no_equals s :
  Str.existsb (Ascii.eqb "="%char) s = false → (INatCli.split1 s).2 = None.
Proof.
  induction s as [|c s IH]; [done|]. cbn [Str.existsb INatCli.split1].
  intros [Hc Hs]%orb_false_iff. rewrite Ascii.eqb_sym, Hc. cbn [snd]. by apply IH.
Qed.

Lemma step_bad_count st value :
  INatCli.py_int value = None →
  INatCli.step st ("--count=" +:+ value) = INatCli.Crashed INatCli.UncaughtValueError.
Proof.
  intros Hvalue. cbv [String.append]. unfold INatCli.step, INatCli.after_equals.
  simpl. by rewrite Hvalue.
Qed.

Lemma step_no_equals st arg :
  Str.startswith "--" arg = true →
  Str.existsb (Ascii.eqb "="%char) arg = false →
  INatCli.step st arg = INatCli.Crashed INatCli.UncaughtValueError.
Proof.
  intros Hdash Hno. unfold INatCli.step.
  assert (∀ flag, Str.existsb (Ascii.eqb "="%char) flag = true →
                  Str.startswith flag arg = false) as Hflag.
  { intros flag Hflag. destruct (Str.startswith flag arg) eqn:Hstart; [|done].
    by rewrite (existsb_prefix _ _ _ Hstart Hflag) in Hno. }
  rewrite !Hflag by done. rewrite Hdash.
  pose proof (split1_no_equals _ (existsb_drop _ 2 _ Hno)) as Hsplit.
  destruct (INatCli.split1 (Str.drop 2 arg)) as [key [value|]]; done.
Qed.

(** X17.  A --count= argument whose value is not an integer, and an argument
    that starts with two dashes and holds no equals sign, end the script
    with a ValueError once the arguments before them have been read: no
    request is made and no file is written, whatever the API would
    answer. *)
Theorem malformed_argument_ends_script
    (before after : list string) (arg : string) (st : INatCli.args)
    (api : list (string * pyval) → result pyval) (now : string)
    (fs : gmap string pyval) :
  INatCli.parse before = INatCli.Finished st →
  (∃ value, arg = "--count=" +:+ value ∧ INatCli.py_int value = None)
  ∨ (Str.startswith "--" arg = true ∧ Str.existsb (Ascii.eqb "="%char) arg = false) →
  INatCli.main (before ++ arg :: after) api now fs
  = INatCli.Crashed INatCli.UncaughtValueError.
Proof.
  intros Hbefore Harg. unfold INatCli.main, INatCli.parse in *.
  rewrite parse_from_app, Hbefore. cbn [INatCli.parse_from].
  destruct Harg as [(value & -> & Hvalue)|[Hdash Hno]].
  - by rewrite step_bad_count.
  - by rewrite step_no_equals.
Qed.

Lemma malformed_argument_ends_script_witness :
  INatCli.main [ "--taxon=551307"; "--count=two" ] (Samples.stub_api []) "2025-12-15" ∅
  = INatCli.Crashed INatCli.UncaughtValueError
  ∧ INatCli.main [ "--verbose" ] (Samples.stub_api []) "2025-12-15" ∅
    = INatCli.Crashed INatCli.UncaughtValueError.
Proof.
  split.
  - apply (malformed_argument_ends_script [ "--taxon=551307" ] [] "--count=two"
             {| INatCli.taxon_id := "551307"; INatCli.quality_grade := "";
                INatCli.per_page := 30; INatCli.additional_params := [] |});
      [reflexivity|].
    left. by exists "two".
  - apply (malformed_argument_ends_script [] [] "--verbose" INatCli.initial);
      [reflexivity|].
    right. by split.
Defined.

Lemma step_keeps_key k st arg st' :
  INatCli.step st arg = INatCli.Finished st' →
  is_Some (dict_lookup k (INatCli.additional_params st)) →
  is_Some (dict_lookup k (INatCli.additional_params st')).
Proof.
  unfold INatCli.step. intros Hstep Hk.
  repeat match type of Hstep with
         | (if ?b then _ else _) = _ => destruct b
         | match ?x with _ => _ end = _ => destruct x
         end; simplify_eq; simpl; try done.
  rewrite dict_lookup_set. by destruct (String.eqb k _).
Qed.

Lemma parse_from_keeps_key k argv st st' :
  INatCli.parse_from st argv = INatCli.Finished st' →
  is_Some (dict_lookup k (INatCli.additional_params st)) →
  is_Some (dict_lookup k (INatCli.additional_params st')).
Proof.
  revert st. induction argv as [|arg argv IH]; intros st; simpl.
  - by intros [= <-].
  - destruct (INatCli.step st arg) as [st1|e] eqn:Hstep; [|done].
    intros Hrest Hk. eapply IH; [done|]. by eapply step_keeps_key.
Qed.

Lemma step_sets_keyword k value st :
  k ∈ INatCli.keyword_names →
  ∃ st', INatCli.step st ("--" +:+ k +:+ "=" +:+ value) = INatCli.Finished st'
         ∧ dict_lookup k (INatCli.additional_params st') = Some (PStr value).
Proof.
  intros Hk. unfold INatCli.keyword_names in Hk.
  repeat (apply elem_of_cons in Hk as [->|Hk];
          [cbv [String.append]; unfold INatCli.step; simpl;
           eexists; split; [reflexivity|]; simpl;
           rewrite dict_lookup_set; by rewrite String.eqb_refl|]).
  by apply elem_of_nil in Hk.
Qed.

(** X18.  An additional parameter named taxon_id, quality_grade or per_page
    ends the script: the call of scrape_inat_observations would receive the
    keyword twice.  The script ends with a TypeError, unless a malformed
    argument has ended it before. *)
Theorem repeated_keyword_ends_script
    (argv : list string) (k value : string)
    (api : list (string * pyval) → result pyval) (now : string)
    (fs : gmap string pyval) :
  k ∈ INatCli.keyword_names →
  "--" +:+ k +:+ "=" +:+ value ∈ argv →
  (∃ e, INatCli.main argv api now fs = INatCli.Crashed e)
  ∧ (∀ st, INatCli.parse argv = INatCli.Finished st →
       INatCli.main argv api now fs = INatCli.Crashed INatCli.UncaughtTypeError).
Proof.
  intros Hk (before & after & ->)%list_elem_of_split.
  assert (∀ st, INatCli.parse (before ++ ("--" +:+ k +:+ "=" +:+ value) :: after)
                = INatCli.Finished st →
                INatCli.repeats_keyword (INatCli.additional_params st) = true) as Hrepeat.
  { intros st. unfold INatCli.parse. rewrite parse_from_app.
    destruct (INatCli.parse_from INatCli.initial before) as [st0|e]; [|done].
    cbn [INatCli.parse_from].
    destruct (step_sets_keyword k value st0 Hk) as (st1 & -> & Hset).
    intros Hafter.
    assert (is_Some (dict_lookup k (INatCli.additional_params st))) as Hsome.
    { eapply parse_from_keeps_key; [done|]. by rewrite Hset. }
    unfold INatCli.repeats_keyword. apply existsb_exists.
    exists k. split; [by apply list_elem_of_In | by apply bool_decide_eq_true_2]. }
  unfold INatCli.main.
  destruct (INatCli.parse _) as [st|e] eqn:Hparse.
  - rewrite (Hrepeat st eq_refl). split; [by eexists | done].
  - split; [by eexists | done].
Qed.

Lemma repeated_keyword_ends_script_witness :
  INatCli.main [ "--taxon=551307"; "--per_page=5" ] (Samples.stub_api []) "2025-12-15" ∅
  = INatCli.Crashed INatCli.UncaughtTypeError.
Proof.
  destruct (repeated_keyword_ends_script [ "--taxon=551307"; "--per_page=5" ]
              "per_page" "5" (Samples.stub_api []) "2025-12-15" ∅) as [_ Htype].
  - vm_compute. do 2 right. left.
  - right. left.
  - eapply Htype. reflexivity.
Defined.

(** X19.  A run from the command line that reads its arguments without an
    exception and repeats no keyword writes the observations file, in which
    taxon_id is the taxon of the command line and count is the number of
    observations, at most max(1, count of the command line); every other
    file is left as it is. *)
Theorem command_line_run
    (argv : list string) (st : INatCli.args)
    (api : list (string * pyval) → result pyval) (now : string)
    (fs : gmap string pyval) :
  INatCli.parse argv = INatCli.Finished st →
  INatCli.repeats_keyword (INatCli.additional_params st) = false →
  ∃ fs' fields observations,
    INatCli.main argv api now fs = INatCli.Finished fs'
    ∧ fs' !! "inatslide/observations.json" = Some (PDict fields)
    ∧ dict_lookup "taxon_id" fields = Some (PStr (INatCli.taxon_id st))
    ∧ dict_lookup "observations" fields = Some (PList observations)
    ∧ dict_lookup "count" fields = Some (PInt (Z.of_nat (length observations)))
    ∧ Z.of_nat (length observations) ≤ Z.max 1 (INatCli.per_page st)
    ∧ ∀ path, path ≠ "inatslide/observations.json" → fs' !! path = fs !! path.
Proof.
  intros Hparse Hrepeat. unfold INatCli.main. rewrite Hparse, Hrepeat.
  unfold INat.main, INat.save_observations.
  eexists _, _, _. split; [reflexivity|].
  split; [apply lookup_insert_eq|]. split; [reflexivity|]. split; [reflexivity|].
  split; [reflexivity|]. split.
  - unfold INat.scrape_inat_observations.
    destruct (INat.try_scrape _ _ _ _ _) as [out|e] eqn:Hout.
    + by eapply try_scrape_bound.
    + simpl. lia.
  - intros path Hpath. by rewrite lookup_insert_ne.
Qed.

Lemma command_line_run_witness :
  ∃ fs' fields observations,
    INatCli.main [ "--taxon=551307"; "--count=2" ]
      (Samples.stub_api [ Samples.cc0_observation; Samples.unnamed_observer;
                          Samples.cc0_observation ]) "2025-12-15" ∅
    = INatCli.Finished fs'
    ∧ fs' !! "inatslide/observations.json" = Some (PDict fields)
    ∧ dict_lookup "taxon_id" fields = Some (PStr "551307")
    ∧ dict_lookup "observations" fields = Some (PList observations)
    ∧ dict_lookup "count" fields = Some (PInt (Z.of_nat (length observations)))
    ∧ Z.of_nat (length observations) ≤ 2.
Proof.
  destruct (command_line_run [ "--taxon=551307"; "--count=2" ]
              {| INatCli.taxon_id := "551307"; INatCli.quality_grade := "";
                 INatCli.per_page := 2; INatCli.additional_params := [] |}
              (Samples.stub_api [ Samples.cc0_observation; Samples.unnamed_observer;
                                  Samples.cc0_observation ]) "2025-12-15" ∅
              eq_refl eq_refl)
    as (fs' & fields & observations & Hmain & Hfile & Htaxon & Hobs & Hcount & Hle & _).
  exists fs', fields, observations. repeat split; done.
Defined.

Example command_line_scenario_count :
  ∃ fs' fields,
    INatCli.main [ "--taxon=551307"; "--count=2" ]
      (Samples.stub_api [ Samples.cc0_observation; Samples.unnamed_observer;
                          Samples.cc0_observation ]) "2025-12-15" ∅
    = INatCli.Finished fs'
    ∧ fs' !! "inatslide/observations.json" = Some (PDict fields)
    ∧ dict_lookup "count" fields = Some (PInt 2).
Proof. eexists _, _. split; [reflexivity|]. split; [apply lookup_insert_eq | reflexivity]. Qed.

(** ** The rewritten image URL holds no square *)

Ltac case_chars :=
  repeat match goal with
         | |- context [Ascii.eqb ?a ?c] => is_var c; destruct (Ascii.eqb a c)
         end.

(** Whether square starts a text is decided by its first six characters. *)
Lemma square_window (x : string) (z : string) :
  x ≠ EmptyString →
  Str.startswith "square" (x +:+ "squar" +:+ z) = Str.startswith "square" (x +:+ "squar").
Proof.
  intros Hx.
  destruct x as [|c1 [|c2 [|c3 [|c4 [|c5 [|c6 x]]]]]]; [done|..];
    cbv [String.append]; cbn [Str.startswith]; case_chars; reflexivity.
Qed.

(** An occurrence of square cannot run into the word large. *)
Lemma square_not_into_large (x : string) (t : string) :
  x ≠ EmptyString →
  Str.startswith "square" (x +:+ "squar") = false →
  Str.startswith "square" (x +:+ "large" +:+ t) = false.
Proof.
  intros Hx.
  destruct x as [|c1 [|c2 [|c3 [|c4 [|c5 [|c6 x]]]]]]; [done|..];
    cbv [String.append]; cbn [Str.startswith]; case_chars; try reflexivity;
    intros H; try discriminate H; exact H.
Qed.

Lemma find_cons_None old c s :
  Str.find old (String c s) = None ↔
  Str.startswith old (String c s) = false ∧ Str.find old s = None.
Proof.
  rewrite find_cons. destruct (Str.startswith old (String c s)); [naive_solver|].
  destruct (Str.find old s); naive_solver.
Qed.

Lemma no_square_before_large (p t : string) :
  Str.find "square" (p +:+ "squar") = None →
  Str.find "square" ("large" +:+ t) = None →
  Str.find "square" (p +:+ "large" +:+ t) = None.
Proof.
  intros Hp Ht. induction p as [|c p IH]; [exact Ht|].
  rewrite str_app_cons in *. apply find_cons_None in Hp as [Hstart Hp].
  apply find_cons_None. split; [|by apply IH].
  rewrite <- str_app_cons in *. by apply square_not_into_large.
Qed.

Lemma no_square_after_large (t : string) :
  Str.find "square" t = None → Str.find "square" ("large" +:+ t) = None.
Proof.
  intros Ht. cbv [String.append].
  repeat (apply find_cons_None; split; [reflexivity|]). exact Ht.
Qed.

Lemma no_square_before_first (s : string) (i : nat) :
  Str.find "square" s = Some i →
  Str.find "square" (Str.take i s +:+ "squar") = None.
Proof.
  revert i. induction s as [|c s IH]; intros i; [done|].
  rewrite find_cons.
  destruct (Str.startswith "square" (String c s)) eqn:Hstart.
  - by intros [= <-].
  - destruct (Str.find "square" s) as [j|] eqn:Hj; [|done].
    intros [= <-]. cbn [Str.take]. rewrite str_app_cons.
    apply find_cons_None. split; [|by apply IH].
    rewrite <- str_app_cons.
    rewrite (find_occurrence _ _ _ Hj) in Hstart.
    change ("square" +:+ ?z) with ("squar" +:+ String "e"%char z) in Hstart.
    rewrite <- str_app_cons in Hstart.
    by rewrite square_window in Hstart.
Qed.

Lemma replace_leaves_no_square (s : string) :
  Str.find "square" (Str.replace "square" "large" s) = None.
Proof.
  assert ("square" ≠ EmptyString) as Hne by done.
  remember (String.length s) as n eqn:Hn. revert s Hn.
  induction n as [n IH] using lt_wf_ind. intros s ->.
  destruct (Str.find "square" s) as [i|] eqn:Hfind.
  - rewrite (replace_first _ _ Hne _ _ Hfind).
    apply no_square_before_large; [by apply no_square_before_first|].
    apply no_square_after_large.
    eapply IH; [|reflexivity].
    pose proof (f_equal String.length (find_occurrence _ _ _ Hfind)) as Hlen.
    rewrite !str_app_length in Hlen. change (String.length "square") with 6%nat in *.
    lia.
  - by rewrite (replace_absent _ _ Hne _ Hfind).
Qed.

(** X20.  The image URL of a record holds no occurrence of square, and
    rewriting a rewritten URL changes nothing. *)
Theorem image_url_holds_no_square (url : string) :
  Str.find "square" (Str.replace "square" "large" url) = None
  ∧ Str.replace "square" "large" (Str.replace "square" "large" url)
    = Str.replace "square" "large" url
  ∧ (∀ obs o,
       INat.normalize_observation obs = Ok (Some o) →
       ∃ image_url, py_get o "image_url" PNone = Ok (PStr image_url)
                    ∧ Str.contains "square" image_url = false).
Proof.
  split; [apply replace_leaves_no_square|]. split.
  - apply replace_absent; [done | apply replace_leaves_no_square].
  - intros obs o (photos & photo & photo_url & _ & _ & _ & Himage)%normalized_image_url.
    eexists. split; [exact Himage|].
    unfold Str.contains. rewrite replace_leaves_no_square.
    apply bool_decide_eq_false_2. by intros [? [=]].
Qed.

Lemma image_url_holds_no_square_witness :
  ∃ o image_url,
    INat.normalize_observation Samples.cc0_observation = Ok (Some o)
    ∧ py_get o "image_url" PNone = Ok (PStr image_url)
    ∧ Str.contains "square" image_url = false.
Proof.
  assert (∃ o, INat.normalize_observation Samples.cc0_observation = Ok (Some o))
    as [o Ho] by (eexists; reflexivity).
  destruct (image_url_holds_no_square EmptyString) as (_ & _ & Hrecord).
  destruct (Hrecord _ o Ho) as (image_url & Himage & Hno).
  by exists o, image_url.
Defined.

Example square_inside_squares :
  Str.replace "square" "large" "squasquarere" = "squalargere".
Proof. reflexivity. Qed.
